(** * Constraint compilation and solve orchestration of [solve_network.py]

    A shallow embedding of [workflow/scripts/solve_network.py]: the region
    resolver, the component filter, the constraint families that the
    properties below speak about, and the solve-strategy dispatcher.

    Conventions of the embedding.
    - A pandas table is the list of its rows, in table order; a boolean
      mask is a [bool]-valued function of the row; [isin] is list
      membership.
    - Numbers that pandas holds as floats are exact rationals ([Q]); a
      value that can be [NaN] is an [option Q] with [None] for [NaN].
    - Strings are byte strings; [str.lower] and [str.strip] act on the
      ASCII range.
    - The network object, the optimisation model attached to it and the
      logger form one mutable store, threaded through a state and
      exception monad in which the store survives a raised exception, as
      it does in Python.
    - The optimisation backend is a recorder: [add_constraints] appends a
      named constraint to the model, and the model holds every variable
      that a family looks up, the container having created them before
      the families run. The solver entry points are parameters.
    - Reading a policy file yields its table; a family takes the table
      in place of the path. *)

From Stdlib Require Import String Ascii List Bool ZArith QArith Lia Lqa.
From Stdlib Require Import DecimalString.
Import ListNotations.

Local Open Scope string_scope.
Local Open Scope Z_scope.

(* ===================================================================== *)
(** ** Strings *)
(* ===================================================================== *)

Module Str.

(** [c.lower()] on the ASCII range: [A]..[Z] move to [a]..[z]. *)
Definition lower_ascii (c : ascii) : ascii :=
  let k := nat_of_ascii c in
  if (Nat.leb 65 k && Nat.leb k 90)%bool then ascii_of_nat (k + 32) else c.

(** [s.lower()] *)
Fixpoint lower (s : string) : string :=
  match s with
  | EmptyString => EmptyString
  | String c r => String (lower_ascii c) (lower r)
  end.

(** The characters [str.strip()] removes, within ASCII: tab, line feed,
    vertical tab, form feed, carriage return, the four separators
    0x1c..0x1f and the space. *)
Definition is_space (c : ascii) : bool :=
  let k := nat_of_ascii c in
  ((Nat.leb 9 k && Nat.leb k 13) || (Nat.leb 28 k && Nat.leb k 32))%bool.

Fixpoint lstrip (s : string) : string :=
  match s with
  | EmptyString => EmptyString
  | String c r => if is_space c then lstrip r else s
  end.

Fixpoint rstrip (s : string) : string :=
  match s with
  | EmptyString => EmptyString
  | String c r =>
      match rstrip r with
      | EmptyString => if is_space c then EmptyString else String c EmptyString
      | r' => String c r'
      end
  end.

(** [s.strip()] *)
Definition strip (s : string) : string := rstrip (lstrip s).

(** [s.split(sep)] for a one-character separator: never the empty list,
    [""] splits to [[""]]. *)
Fixpoint split (sep : ascii) (s : string) : list string :=
  match s with
  | EmptyString => [EmptyString]
  | String c r =>
      if Ascii.eqb c sep then EmptyString :: split sep r
      else match split sep r with
           | h :: t => String c h :: t
           | [] => [String c EmptyString]
           end
  end.

(** [[x.strip() for x in s.split(",")]] *)
Definition split_strip (s : string) : list string :=
  map strip (split "," s).

(** [s.startswith(p)] *)
Definition startswith (p s : string) : bool := String.prefix p s.

(** [s.endswith(p)] *)
Fixpoint endswith (p s : string) : bool :=
  if String.eqb s p then true
  else match s with
       | EmptyString => false
       | String _ r => endswith p r
       end.

(** [sub in s] for strings, and [Series.str.contains(sub)] for a pattern
    without regular-expression metacharacters. *)
Fixpoint contains (sub s : string) : bool :=
  if String.prefix sub s then true
  else match s with
       | EmptyString => false
       | String _ r => contains sub r
       end.

(** [x in l], [Series.isin(l)] at one value. *)
Definition isin (x : string) (l : list string) : bool :=
  existsb (String.eqb x) l.

(** [f"{z}"] for an integer. *)
Definition of_Z (z : Z) : string := NilZero.string_of_int (Z.to_int z).

End Str.

(** [z in l] for integers. *)
Definition Zisin (z : Z) (l : list Z) : bool := existsb (Z.eqb z) l.

(* ===================================================================== *)
(** ** Numbers *)
(* ===================================================================== *)

(** [Series.sum()]: the empty sum is [0]. *)
Definition Qsum (l : list Q) : Q := fold_right Qplus 0%Q l.

(** [Series.max()]: [NaN] on an empty series. *)
Fixpoint Qmaximum (l : list Q) : option Q :=
  match l with
  | [] => None
  | x :: r =>
      match Qmaximum r with
      | None => Some x
      | Some m => Some (if Qle_bool m x then x else m)
      end
  end.

(** Arithmetic on possibly-[NaN] values: [NaN] is absorbing. *)
Definition nan_mul (a b : option Q) : option Q :=
  match a, b with
  | Some x, Some y => Some (x * y)%Q
  | _, _ => None
  end.

Definition nan_sub (a b : option Q) : option Q :=
  match a, b with
  | Some x, Some y => Some (x - y)%Q
  | _, _ => None
  end.

(* ===================================================================== *)
(** ** The network container *)
(* ===================================================================== *)

(** A row of [n.buses]. *)
Record Bus := {
  bus_name : string;
  country : string;
  reeds_state : string;
  interconnect : string;
  nerc_reg : string
}.

(** A row of [n.generators] or [n.storage_units]: the columns the
    constraint families read. *)
Record Component := {
  name : string;
  bus : string;
  carrier : string;
  p_nom_extendable : bool;
  p_nom : Q
}.

(** The component types whose tables carry the [bus], [carrier] and
    [p_nom_extendable] columns. *)
Inductive component_type := Generator | StorageUnit.

(** A row of [n.links]. *)
Record Link := {
  link_name : string;
  bus0 : string;
  link_p_nom_extendable : bool;
  efficiency : Q
}.

(** A row of [n.lines]. *)
Record Line := {
  line_name : string;
  s_nom_extendable : bool
}.

(** A row of [n.loads]. *)
Record Load := {
  load_name : string;
  load_bus : string
}.

(** An entry of the two-level snapshot index: investment period and
    position of the timestep inside it. *)
Record Snapshot := {
  period : Z;
  timestep : nat
}.

(** Python exceptions that the embedded code can raise. [NameError]
    stands also for pandas' [UndefinedVariableError], which derives from
    it. *)
Inductive exn :=
| KeyError (key : string)
| ValueError (msg : string)
| AssertionError
| UnboundLocalError (var : string)
| IndexError
| RuntimeError (msg : string)
| NameError (name : string).

Inductive result (A : Type) :=
| Ok (a : A)
| Raise (e : exn).
Arguments Ok {A} a.
Arguments Raise {A} e.

(** A row of the sector emission policy table named by
    [config["sector"]["co2"]["policy"]]. *)
Record Co2Policy := {
  co2_sector : string;
  co2_state : string;
  co2_year : Z;
  co2_limit_mmt : Q
}.

(** The entries of the configuration mapping that the embedded functions
    read. [co2_policy] is [None] when one of the keys on the way to
    [config["sector"]["co2"]["policy"]] is absent, and otherwise the
    table read from the file it names. *)
Record Config := {
  foresight : string;
  SAFE_reservemargin : Q;
  co2_policy : option (list Co2Policy)
}.

(** The network: component tables (identifiers unique within a table),
    snapshot index, time series, the scenario context attached before
    solving, and the per-horizon activity query of the container, which
    answers with a mask over the component names or raises. *)
Record Network := {
  config : option Config;
  opts : list string;
  buses : list Bus;
  generators : list Component;
  storage_units : list Component;
  links : list Link;
  lines : list Line;
  loads : list Load;
  stores : list string;
  snapshots : list Snapshot;
  investment_periods : list Z;
  (** [n.loads_t.p_set]: one row per snapshot, one value per row of
      [n.loads], in table order. *)
  loads_t_p_set : list (list Q);
  (** [n.links_t["efficiency"]]: the columns present, each with one value
      per snapshot. *)
  links_t_efficiency : list (string * list Q);
  get_active_assets : component_type -> Z -> result (string -> bool)
}.

(** [n.df(component_type)] *)
Definition df (n : Network) (c : component_type) : list Component :=
  match c with
  | Generator => generators n
  | StorageUnit => storage_units n
  end.

(* ===================================================================== *)
(** ** The optimisation backend *)
(* ===================================================================== *)

(** A decision variable of the model: the variable's name in the model
    ([Generator-p_nom], [Link-p], ...), the snapshot for a time-indexed
    variable, and the component label. *)
Record Var := {
  var_name : string;
  var_snapshot : option Snapshot;
  var_label : string
}.

(** A linear expression object as the families assemble it, one
    constructor per backend call used in the source. *)
Inductive lexpr :=
| Loc (v : string) (idx : list string)
    (** [n.model[v].loc[idx]] *)
| LocAt (v : string) (s : Snapshot) (idx : list string)
    (** [n.model[v].loc[s, idx]] *)
| LocAll (v : string) (idx : list string)
    (** [n.model[v].loc[:, idx]] *)
| Sel (v : string) (p : Z) (idx : list string)
    (** [n.model[v].sel(period=p, <component>=idx)] *)
| MulValues (e : lexpr) (a : list (option Q))
    (** [e * a] for a one-dimensional array [a], whose entries may be
        [NaN] *)
| MulFrame (e : lexpr) (cols : list (string * list Q))
    (** [e.mul(frame)] for a snapshot-by-component frame *)
| Sub (a b : lexpr)
| Add (a b : lexpr)
| Sum (e : lexpr).
    (** [e.sum()] *)

Inductive sense := GE | LE | EQ.

(** The right-hand side handed to [add_constraints]: a number (possibly
    [NaN]) or again an expression. *)
Inductive rhs_t :=
| Const (q : option Q)
| Expr (e : lexpr).

(** A named constraint as registered with the backend. *)
Record Constraint := {
  cname : string;
  lhs : lexpr;
  csense : sense;
  rhs : rhs_t
}.

(** A linear combination of variables. *)
Definition linexpr := list (Q * Var).

Definition scale (k : Q) (e : linexpr) : linexpr :=
  map (fun t => ((k * fst t)%Q, snd t)) e.

Definition mkVar (v : string) (s : option Snapshot) (l : string) : Var :=
  {| var_name := v; var_snapshot := s; var_label := l |}.

(** The entries of an array when none of them is [NaN]. *)
Fixpoint all_some {A} (l : list (option A)) : option (list A) :=
  match l with
  | [] => Some []
  | Some x :: r =>
      match all_some r with
      | Some r' => Some (x :: r')
      | None => None
      end
  | None :: _ => None
  end.

Fixpoint zip_with {A B C} (f : A -> B -> C) (a : list A) (b : list B) : list C :=
  match a, b with
  | x :: a', y :: b' => f x y :: zip_with f a' b'
  | _, _ => []
  end.

(** The snapshots of one investment period, in index order. *)
Definition period_snapshots (sns : list Snapshot) (p : Z) : list Snapshot :=
  filter (fun s => Z.eqb (period s) p) sns.

(** The rows an expression stands for, each a linear combination. An
    expression along one component dimension has one row per label; [Sum]
    collapses to a single row. Two operands of equal size are combined
    position by position, the left operand giving the labels; the backend
    joins operands of different sizes by label, which the families never
    rely on and which is left undefined here, as are the product with a
    snapshot-by-component frame and a [NaN] coefficient. *)
Fixpoint denote (sns : list Snapshot) (e : lexpr) : option (list linexpr) :=
  match e with
  | Loc v idx => Some (map (fun l => [(1%Q, mkVar v None l)]) idx)
  | LocAt v s idx => Some (map (fun l => [(1%Q, mkVar v (Some s) l)]) idx)
  | LocAll v idx =>
      Some (flat_map (fun s => map (fun l => [(1%Q, mkVar v (Some s) l)]) idx) sns)
  | Sel v p idx =>
      Some (flat_map (fun s => map (fun l => [(1%Q, mkVar v (Some s) l)]) idx)
                     (period_snapshots sns p))
  | MulValues e a =>
      match denote sns e, all_some a with
      | Some rows, Some ks =>
          if Nat.eqb (length rows) (length ks)
          then Some (zip_with (fun r k => scale k r) rows ks)
          else None
      | _, _ => None
      end
  | MulFrame _ _ => None
  | Sub a b =>
      match denote sns a, denote sns b with
      | Some ra, Some rb =>
          if Nat.eqb (length ra) (length rb)
          then Some (zip_with (fun x y => (x ++ scale (-1) y)%list) ra rb)
          else None
      | _, _ => None
      end
  | Add a b =>
      match denote sns a, denote sns b with
      | Some ra, Some rb =>
          if Nat.eqb (length ra) (length rb)
          then Some (zip_with (fun x y => (x ++ y)%list) ra rb)
          else None
      | _, _ => None
      end
  | Sum e =>
      match denote sns e with
      | Some rows => Some [concat rows]
      | None => None
      end
  end.

(** The value of a linear combination under an assignment of the
    variables. *)
Definition eval (sigma : Var -> Q) (e : linexpr) : Q :=
  Qsum (map (fun t => (fst t * sigma (snd t))%Q) e).

Definition holds (s : sense) (l r : Q) : Prop :=
  match s with
  | GE => (r <= l)%Q
  | LE => (l <= r)%Q
  | EQ => (l == r)%Q
  end.

(** An assignment satisfies a constraint with a numeric right-hand side
    when every row of the left-hand side does. *)
Definition satisfies (sns : list Snapshot) (sigma : Var -> Q) (c : Constraint) : Prop :=
  exists rows r,
    denote sns (lhs c) = Some rows /\ rhs c = Const (Some r) /\
    Forall (fun row => holds (csense c) (eval sigma row) r) rows.

(** The variables an operand brings into a left-hand side; an operand
    over an empty index brings none. *)
Definition operand_size (sns : list Snapshot) (e : lexpr) : option nat :=
  match denote sns e with
  | Some rows => Some (length (concat rows))
  | None => None
  end.

(* ===================================================================== *)
(** ** The mutable store and its monad *)
(* ===================================================================== *)

Inductive level := DEBUG | INFO | WARNING | ERROR.

Inductive arg :=
| AStr (s : string)
| AInt (z : Z)
| ANum (q : Q).

(** A log record: level, message template with [{}] for each formatted
    field, and the fields. *)
Record LogRecord := {
  levelname : level;
  template : string;
  args : list arg
}.

(** A one-element tuple [(a,)]. *)
Inductive tuple1 (A : Type) := Tuple1 (a : A).
Arguments Tuple1 {A} a.

(** The function objects passed as [extra_functionality]. *)
Inductive callback := extra_functionality.

(** The keyword arguments handed to the backend; [None] is an absent
    key. *)
Record Kwargs := {
  kw_caller : list (string * string);
  kw_multi_investment_periods : option bool;
  kw_solver_options : option (list (string * string));
  kw_solver_name : option string;
  kw_extra_functionality : option callback;
  kw_transmission_losses : option bool;
  kw_linearized_unit_commitment : option bool;
  kw_assign_all_duals : option bool;
  kw_horizon : option Z;
  kw_overlap : option Z;
  kw_track_iterations : option (tuple1 bool);
  kw_min_iterations : option (tuple1 Z);
  kw_max_iterations : option (tuple1 Z)
}.

(** [solving["options"]]: each entry is present or not. *)
Record SolvingOptions := {
  rolling_horizon : option bool;
  skip_iterations : option bool;
  transmission_losses : option bool;
  linearized_unit_commitment : option bool;
  assign_all_duals : option bool;
  horizon : option Z;
  overlap : option Z;
  track_iterations : option bool;
  min_iterations : option Z;
  max_iterations : option Z
}.

(** The [solving] mapping. [solver_options_set] is
    [solving["solver"]["options"]], the empty string when unset. *)
Record Solving := {
  solver_name : string;
  solver_options_set : string;
  solver_options : list (string * list (string * string));
  options : SolvingOptions
}.

(** The three entry points of the backend's solve. *)
Inductive strategy :=
| Direct (kwargs : Kwargs)
| Iterative (kwargs : Kwargs)
| RollingHorizon (kwargs : Kwargs).

(** What a call can change: the network object, the constraints of the
    model attached to it, the log, the calls made to the backend's solve
    entry points and to its diagnostic report. *)
Record World := {
  net : Network;
  model : list Constraint;
  records : list LogRecord;
  solver_calls : list strategy;
  infeasibility_reports : nat
}.

Definition M (A : Type) : Type := World -> result A * World.

Definition ret {A} (a : A) : M A := fun w => (Ok a, w).

Definition bind {A B} (m : M A) (k : A -> M B) : M B :=
  fun w =>
    match m w with
    | (Ok a, w') => k a w'
    | (Raise e, w') => (Raise e, w')
    end.

Definition raise {A} (e : exn) : M A := fun w => (Raise e, w).

Declare Scope py_scope.
Delimit Scope py_scope with py.
Notation "x <- m ;; k" := (bind m (fun x => k))
  (at level 61, m at next level, right associativity) : py_scope.
Notation "m ;; k" := (bind m (fun _ => k))
  (at level 61, right associativity) : py_scope.
Local Open Scope py_scope.

(** Reading the network object [n]. *)
Definition get_net : M Network := fun w => (Ok (net w), w).

(** Lifting a container query that answers or raises. *)
Definition lift {A} (r : result A) : M A := fun w => (r, w).

(** [logger.<level>(...)] *)
Definition log (l : level) (t : string) (a : list arg) : M unit :=
  fun w =>
    (Ok tt,
     {| net := net w;
        model := model w;
        records := records w ++ [{| levelname := l; template := t; args := a |}];
        solver_calls := solver_calls w;
        infeasibility_reports := infeasibility_reports w |}).

(** [n.model.add_constraints(lhs <sense> rhs, name=...)] *)
Definition add_constraints (l : lexpr) (s : sense) (r : rhs_t) (nm : string) : M unit :=
  fun w =>
    (Ok tt,
     {| net := net w;
        model := model w ++ [{| cname := nm; lhs := l; csense := s; rhs := r |}];
        records := records w;
        solver_calls := solver_calls w;
        infeasibility_reports := infeasibility_reports w |}).

(** [n.model.print_infeasibilities()] *)
Definition print_infeasibilities : M unit :=
  fun w =>
    (Ok tt,
     {| net := net w;
        model := model w;
        records := records w;
        solver_calls := solver_calls w;
        infeasibility_reports := S (infeasibility_reports w) |}).

(** [for x in xs: body(x)] *)
Fixpoint for_each {A} (xs : list A) (body : A -> M unit) : M unit :=
  match xs with
  | [] => ret tt
  | x :: r => body x ;; for_each r body
  end.

(** A loop that carries local variables of the enclosing function from
    one iteration to the next. *)
Fixpoint for_fold {A S} (xs : list A) (s : S) (body : S -> A -> M S) : M S :=
  match xs with
  | [] => ret s
  | x :: r => s' <- body s x ;; for_fold r s' body
  end.

(* ===================================================================== *)
(** ** Region resolver and component filter *)
(* ===================================================================== *)

(** [get_region_buses(n, region_list)] *)
Definition get_region_buses (n : Network) (region_list : list string) : list Bus :=
  filter
    (fun b =>
       Str.isin (country b) region_list
       || Str.isin (reeds_state b) region_list
       || Str.isin (Str.lower (interconnect b)) region_list
       || Str.isin (nerc_reg b) region_list
       || (if Str.isin "all" region_list then true else false))
    (buses n).

(** [region_buses.index] *)
Definition index (bs : list Bus) : list string := map bus_name bs.

(** [filter_components(n, component_type, planning_horizon, carrier_list,
    region_buses, extendable)] *)
Definition filter_components (component_type : component_type) (planning_horizon : Z)
    (carrier_list : list string) (region_buses : list string) (extendable : bool)
  : M (list Component) :=
  n <- get_net ;;
  let component := df n component_type in
  active_components <- lift (get_active_assets n component_type planning_horizon) ;;
  let filtered :=
    filter
      (fun c =>
         active_components (name c)
         && Str.isin (carrier c) carrier_list
         && Str.isin (bus c) region_buses
         && Bool.eqb (p_nom_extendable c) extendable)
      component in
  ret filtered.

(* ===================================================================== *)
(** ** Constraint families *)
(* ===================================================================== *)

(** A row of the portfolio-standard table after the three sources have
    been concatenated (the table on which the filters of
    [add_RPS_constraints] act). *)
Record PortfolioStandard := {
  ps_name : string;
  ps_region : string;
  ps_carrier : string;
  ps_planning_horizon : Z;
  ps_pct : Q
}.

(** A row of the regional planning-reserve-margin table after its two
    sources have been concatenated. *)
Record ReserveMargin := {
  prm_name : string;
  prm_region : string;
  prm_planning_horizon : Z;
  prm : Q
}.

(** [frame.loc[planning_horizon]] on a frame indexed by the snapshots:
    the rows of one investment period, [KeyError] when the period has no
    snapshot. *)
Definition loc_period {A} (sns : list Snapshot) (frame : list A) (planning_horizon : Z)
  : result (list A) :=
  match filter (fun sr => Z.eqb (period (fst sr)) planning_horizon) (combine sns frame) with
  | [] => Raise (KeyError (Str.of_Z planning_horizon))
  | rows => Ok (map snd rows)
  end.

(** Selecting the columns of one frame row by a boolean mask over the
    columns. *)
Fixpoint select_columns {A} (mask : list bool) (row : list A) : list A :=
  match mask, row with
  | m :: mask', x :: row' =>
      if m then x :: select_columns mask' row' else select_columns mask' row'
  | _, _ => []
  end.

(** [frame.sum()]: the sum of every column over the rows. *)
Definition column_sums (ncols : nat) (rows : list (list Q)) : list Q :=
  fold_right (zip_with Qplus) (repeat 0%Q ncols) rows.

(** [n.loads.bus.isin(region_buses.index)] *)
Definition loads_in (n : Network) (region_index : list string) : list bool :=
  map (fun l => Str.isin (load_bus l) region_index) (loads n).

(** [n.loads_t.p_set.loc[planning_horizon,
    n.loads.bus.isin(region_buses.index)]] *)
Definition region_loads (n : Network) (planning_horizon : Z) (region_index : list string)
  : result (list (list Q)) :=
  match loc_period (snapshots n) (loads_t_p_set n) planning_horizon with
  | Ok rows => Ok (map (select_columns (loads_in n region_index)) rows)
  | Raise e => Raise e
  end.

(** The [region_demand] of [add_RPS_constraints]: [.sum().sum()] of the
    region's loads over the horizon. *)
Definition region_demand (n : Network) (planning_horizon : Z) (region_index : list string)
  : result Q :=
  match region_loads n planning_horizon region_index with
  | Ok rows =>
      Ok (Qsum (column_sums
                  (length (filter (fun b => b) (loads_in n region_index))) rows))
  | Raise e => Raise e
  end.

(** The [peakdemand] of [add_SAFER_constraints]: [.sum(axis=1).max()] of
    the region's loads over the horizon. *)
Definition region_peakdemand (n : Network) (planning_horizon : Z) (region_index : list string)
  : result (option Q) :=
  match region_loads n planning_horizon region_index with
  | Ok rows => Ok (Qmaximum (map Qsum rows))
  | Raise e => Raise e
  end.

Definition is_nil {A} (l : list A) : bool :=
  match l with
  | [] => true
  | _ => false
  end.

(** The carrier lists that a [DataFrame.query] can reach through
    [@name]: pandas looks the name up among the locals of the calling
    function and the globals of its module. *)
Definition Scope : Type := list (string * list string).

(** Resolving [@name]: the list bound to the name, and pandas'
    [UndefinedVariableError] when the name is bound in neither scope. *)
Definition resolve (scope : Scope) (name : string) : result (list string) :=
  match find (fun kv => String.eqb (fst kv) name) scope with
  | Some kv => Ok (snd kv)
  | None => Raise (NameError name)
  end.

(** [gens.query("carrier in @conventional_carriers & p_nom_extendable")] *)
Definition query_ext_conventional (scope : Scope) (gens : list Component)
  : result (list Component) :=
  match resolve scope "conventional_carriers" with
  | Ok conventional_carriers =>
      Ok (filter (fun g => Str.isin (carrier g) conventional_carriers && p_nom_extendable g)
                 gens)
  | Raise e => Raise e
  end.

(** [gens.query("~p_nom_extendable & carrier in @conventional_carriers")] *)
Definition query_existing_conventional (scope : Scope) (gens : list Component)
  : result (list Component) :=
  match resolve scope "conventional_carriers" with
  | Ok conventional_carriers =>
      Ok (filter (fun g => negb (p_nom_extendable g)
                           && Str.isin (carrier g) conventional_carriers)
                 gens)
  | Raise e => Raise e
  end.

(** The carrier lists in scope where [add_SAFE_constraints] and
    [add_SAFER_constraints] call [query]: neither function binds a local
    of that kind, and the module binds no global of that kind; the name
    [conventional_carriers] occurs in the module inside the four query
    strings only. *)
Definition reserve_margin_scope : Scope := [].

Section Families.

(** [snakemake.params.planning_horizons] *)
Variable planning_horizons : list Z.

(** One iteration of the loop of [add_RPS_constraints]. *)
Definition add_RPS_row (pct_lim : PortfolioStandard) : M unit :=
  n <- get_net ;;
  let region_list := Str.split_strip (ps_region pct_lim) in
  let region_buses := get_region_buses n region_list in
  if is_nil region_buses then ret tt
  else
    let carriers := Str.split_strip (ps_carrier pct_lim) in
    let region_gens :=
      filter (fun g => Str.isin (bus g) (index region_buses)) (generators n) in
    let region_gens_eligible :=
      filter (fun g => Str.isin (carrier g) carriers) region_gens in
    if negb (is_nil region_gens) then
      let p_eligible :=
        Sel "Generator-p" (ps_planning_horizon pct_lim) (map name region_gens_eligible) in
      let lhs := Sum p_eligible in
      region_demand <-
        lift (region_demand n (ps_planning_horizon pct_lim) (index region_buses)) ;;
      let rhs := (ps_pct pct_lim * region_demand)%Q in
      add_constraints lhs GE (Const (Some rhs))
        ("GlobalConstraint-" ++ ps_name pct_lim ++ "_"
           ++ Str.of_Z (ps_planning_horizon pct_lim) ++ "_rps_limit") ;;
      log INFO "Adding RPS {}_{} for {}."
        [AStr (ps_name pct_lim); AInt (ps_planning_horizon pct_lim);
         AInt (ps_planning_horizon pct_lim)]
    else ret tt.

(** [add_RPS_constraints(n, config)], from the concatenated table on. *)
Definition add_RPS_constraints (portfolio_standards : list PortfolioStandard) : M unit :=
  let portfolio_standards :=
    filter (fun r => negb (Qle_bool (ps_pct r) 0)) portfolio_standards in
  let portfolio_standards :=
    filter (fun r => Zisin (ps_planning_horizon r) planning_horizons)
           portfolio_standards in
  for_each portfolio_standards add_RPS_row.

(** [add_SAFE_constraints(n, config)] *)
Definition add_SAFE_constraints (config : Config) : M unit :=
  n <- get_net ;;
  let peakdemand := Qmaximum (map Qsum (loads_t_p_set n)) in
  let margin := (1 + SAFE_reservemargin config)%Q in
  let reserve_margin := nan_mul peakdemand (Some margin) in
  ext_gens <- lift (query_ext_conventional reserve_margin_scope (generators n)) ;;
  let ext_gens_i := map name ext_gens in
  let p_nom_v := Loc "Generator-p_nom" ext_gens_i in
  let lhs := Sum p_nom_v in
  exist_conv <- lift (query_existing_conventional reserve_margin_scope (generators n)) ;;
  let exist_conv_caps := Qsum (map p_nom exist_conv) in
  let rhs := nan_sub reserve_margin (Some exist_conv_caps) in
  add_constraints lhs GE (Const rhs) "safe_mintotalcap".

(** One iteration of the loop of [add_SAFER_constraints]. *)
Definition add_SAFER_row (r : ReserveMargin) : M unit :=
  n <- get_net ;;
  let region_list := Str.split_strip (prm_region r) in
  let region_buses := get_region_buses n region_list in
  if is_nil region_buses then ret tt
  else
    peakdemand <-
      lift (region_peakdemand n (prm_planning_horizon r) (index region_buses)) ;;
    let margin := (1 + prm r)%Q in
    let planning_reserve := nan_mul peakdemand (Some margin) in
    let region_gens :=
      filter (fun g => Str.isin (bus g) (index region_buses)) (generators n) in
    ext_gens <- lift (query_ext_conventional reserve_margin_scope region_gens) ;;
    let ext_gens_i := map name ext_gens in
    let p_nom_v := Loc "Generator-p_nom" ext_gens_i in
    let lhs := Sum p_nom_v in
    exist_conv <- lift (query_existing_conventional reserve_margin_scope region_gens) ;;
    let exist_conv_caps := Qsum (map p_nom exist_conv) in
    let rhs := nan_sub planning_reserve (Some exist_conv_caps) in
    add_constraints lhs GE (Const rhs)
      ("GlobalConstraint-" ++ prm_name r ++ "_"
         ++ Str.of_Z (prm_planning_horizon r) ++ "_PRM").

(** [add_SAFER_constraints(n, config)], from the concatenated table
    on. *)
Definition add_SAFER_constraints (regional_prm : list ReserveMargin) : M unit :=
  let regional_prm :=
    filter (fun r => Zisin (prm_planning_horizon r) planning_horizons) regional_prm in
  for_each regional_prm add_SAFER_row.

End Families.

(** [n.links.p_nom_extendable.any()] *)
Definition any_link_extendable (n : Network) : bool :=
  existsb link_p_nom_extendable (links n).

(** [add_battery_constraints(n)] *)
Definition add_battery_constraints : M unit :=
  n <- get_net ;;
  if negb (any_link_extendable n) then ret tt
  else
    let discharger_bool := fun l => Str.contains "battery discharger" (link_name l) in
    let charger_bool := fun l => Str.contains "battery charger" (link_name l) in
    let dischargers_ext :=
      filter link_p_nom_extendable (filter discharger_bool (links n)) in
    let chargers_ext :=
      filter link_p_nom_extendable (filter charger_bool (links n)) in
    let eff := map (fun l => Some (efficiency l)) dischargers_ext in
    let lhs :=
      Sub (Loc "Link-p_nom" (map link_name chargers_ext))
          (MulValues (Loc "Link-p_nom" (map link_name dischargers_ext)) eff) in
    add_constraints lhs EQ (Const (Some 0%Q)) "Link-charger_ratio".

(** [Series.unique()]: the distinct values in order of first
    appearance. *)
Fixpoint unique {A} (eqb : A -> A -> bool) (l : list A) : list A :=
  match l with
  | [] => []
  | x :: r => x :: filter (fun y => negb (eqb y x)) (unique eqb r)
  end.

(** [sns[sns.get_level_values("period") == year][-1]] *)
Definition last_snapshot (n : Network) (year : Z) : result Snapshot :=
  match rev (period_snapshots (snapshots n) year) with
  | [] => Raise IndexError
  | s :: _ => Ok s
  end.

Module SectorCo2.

Definition one_millionth : Q := 1 # 1000000.
Definition one_million : Q := 1000000 # 1.

(** [apply_total_state_limit(n, year, state, value)] *)
Definition apply_total_state_limit (year : Z) (state : string) (value : Q) : M unit :=
  n <- get_net ;;
  snapshot <- lift (last_snapshot n year) ;;
  let stores :=
    filter (fun s => Str.startswith state s
                     && (Str.endswith "-co2" s || Str.endswith "-ch4" s))
           (stores n) in
  let lhs := Sum (LocAt "Store-e" snapshot stores) in
  let rhs := value in
  add_constraints lhs LE (Const (Some rhs))
    ("co2_limit-" ++ Str.of_Z year ++ "-" ++ state) ;;
  log INFO "Adding {} co2 Limit in {} of {} MMT CO2"
    [AStr state; AInt year; ANum (rhs * one_millionth)%Q].

(** [apply_sector_state_limit(n, year, state, sector, value)] *)
Definition apply_sector_state_limit (year : Z) (state sector : string) (value : Q)
  : M unit :=
  n <- get_net ;;
  snapshot <- lift (last_snapshot n year) ;;
  let stores :=
    filter (fun s => Str.startswith state s
                     && (Str.endswith (sector ++ "-co2") s
                         || Str.endswith (sector ++ "-ch4") s))
           (stores n) in
  let lhs := Sum (LocAt "Store-e" snapshot stores) in
  let rhs := value in
  add_constraints lhs LE (Const (Some rhs))
    ("co2_limit-" ++ Str.of_Z year ++ "-" ++ state ++ "-" ++ sector) ;;
  log INFO "Adding {} co2 Limit for {} in {} of {} MMT CO2"
    [AStr state; AStr sector; AInt year; ANum (rhs * one_millionth)%Q].

(** [apply_total_national_limit(n, year, value)] *)
Definition apply_total_national_limit (year : Z) (value : Q) : M unit :=
  n <- get_net ;;
  snapshot <- lift (last_snapshot n year) ;;
  let stores :=
    filter (fun s => Str.endswith "-co2" s || Str.endswith "-ch4" s) (stores n) in
  let lhs := Sum (LocAt "Store-e" snapshot stores) in
  let rhs := value in
  add_constraints lhs LE (Const (Some rhs)) ("co2_limit-" ++ Str.of_Z year) ;;
  log INFO "Adding national co2 Limit in {} of {} MMT CO2"
    [AInt year; ANum (rhs * one_millionth)%Q].

(** [apply_sector_national_limit(n, year, sector, value)] *)
Definition apply_sector_national_limit (year : Z) (sector : string) (value : Q)
  : M unit :=
  n <- get_net ;;
  snapshot <- lift (last_snapshot n year) ;;
  let stores :=
    filter (fun s => Str.endswith (sector ++ "-co2") s
                     || Str.endswith (sector ++ "-ch4") s)
           (stores n) in
  let lhs := Sum (LocAt "Store-e" snapshot stores) in
  let rhs := value in
  add_constraints lhs LE (Const (Some rhs))
    ("co2_limit-" ++ Str.of_Z year ++ "-" ++ sector) ;;
  log INFO "Adding national co2 Limit for {} sector in {} of {} MMT CO2"
    [AStr sector; AInt year; ANum (rhs * one_millionth)%Q].

(** [state.upper()] on the ASCII range. *)
Definition upper_ascii (c : ascii) : ascii :=
  let k := nat_of_ascii c in
  if (Nat.leb 97 k && Nat.leb k 122)%bool then ascii_of_nat (k - 32) else c.

Fixpoint upper (s : string) : string :=
  match s with
  | EmptyString => EmptyString
  | String c r => String (upper_ascii c) (upper r)
  end.

(** The body of [for year in years:]. *)
Definition apply_year (df_state : list Co2Policy) (sector state : string) (year : Z)
  : M unit :=
  let df_limit := filter (fun r => Z.eqb (co2_year r) year) df_state in
  match df_limit with
  | [row] =>
      let value := (co2_limit_mmt row * one_million)%Q in
      if String.eqb (upper state) "USA" then
        if String.eqb sector "all" then apply_total_national_limit year value
        else apply_sector_national_limit year sector value
      else
        if String.eqb sector "all" then apply_total_state_limit year state value
        else apply_sector_state_limit year state sector value
  | _ => raise AssertionError
  end.

(** The body of [for state in states:]. The local variable [year] of
    the enclosing function is carried through the loops: it is unbound
    ([None]) until the first iteration of [for year in years:]
    anywhere, and keeps its last value afterwards. *)
Definition apply_state (n : Network) (df_sector : list Co2Policy) (sector : string)
    (year : option Z) (state : string) : M (option Z) :=
  let df_state := filter (fun r => String.eqb (co2_state r) state) df_sector in
  let years :=
    filter (fun x => Zisin x (investment_periods n))
           (unique Z.eqb (map co2_year df_state)) in
  if is_nil years then
    match year with
    | None => raise (UnboundLocalError "year")
    | Some y =>
        log WARNING "No co2 policies applied for {} in {}" [AStr sector; AInt y] ;;
        ret year
    end
  else
    for_fold years year
      (fun _ y => apply_year df_state sector state y ;; ret (Some y)).

(** The body of [for sector in sectors:]. *)
Definition apply_sector (n : Network) (df : list Co2Policy)
    (year : option Z) (sector : string) : M (option Z) :=
  let df_sector := filter (fun r => String.eqb (co2_sector r) sector) df in
  let states := unique String.eqb (map co2_state df_sector) in
  for_fold states year (apply_state n df_sector sector).

End SectorCo2.

(** [add_sector_co2_constraints(n, config)] *)
Definition add_sector_co2_constraints (config : Config) : M unit :=
  match co2_policy config with
  | None => log ERROR "No co2 policy constraint file found" []
  | Some df =>
      if is_nil df then log WARNING "No co2 policies applied" []
      else
        n <- get_net ;;
        let sectors := unique String.eqb (map co2_sector df) in
        _ <- for_fold sectors None (SectorCo2.apply_sector n df) ;;
        ret tt
  end.

(** [frame[labels]] on a frame given by its columns: [KeyError] at the
    first label without a column. *)
Fixpoint frame_columns (frame : list (string * list Q)) (labels : list string)
  : result (list (string * list Q)) :=
  match labels with
  | [] => Ok []
  | l :: r =>
      match find (fun c => String.eqb (fst c) l) frame with
      | None => Raise (KeyError l)
      | Some c =>
          match frame_columns frame r with
          | Ok cs => Ok (c :: cs)
          | Raise e => Raise e
          end
      end
  end.

(** [n.links[n.links.index.str.endswith(suffix)]] *)
Definition links_ending (n : Network) (suffix : string) : list Link :=
  filter (fun l => Str.endswith suffix (link_name l)) (links n).

Module HeatPump.

(** [add_hp_capacity_constraint(n, hp_type)] *)
Definition add_hp_capacity_constraint (hp_type : string) : M unit :=
  if negb (Str.isin hp_type ["ashp"; "gshp"]) then raise AssertionError
  else
    n <- get_net ;;
    let heating_hps := map link_name (links_ending n hp_type) in
    if is_nil heating_hps then ret tt
    else
      let cooling_hps := map link_name (links_ending n (hp_type ++ "-cooling")) in
      if negb (Nat.eqb (length heating_hps) (length cooling_hps))
      then raise AssertionError
      else
        let lhs := Sub (Loc "Link-p_nom" heating_hps) (Loc "Link-p_nom" cooling_hps) in
        let rhs := 0%Q in
        add_constraints lhs EQ (Const (Some rhs))
          ("Link-" ++ hp_type ++ "_cooling_capacity").

(** [add_hp_generation_constraint(n, hp_type)] *)
Definition add_hp_generation_constraint (hp_type : string) : M unit :=
  n <- get_net ;;
  let heating_hps := map link_name (links_ending n hp_type) in
  if is_nil heating_hps then ret tt
  else
    let cooling_hps := map link_name (links_ending n (hp_type ++ "-cooling")) in
    let heating_hp_p := LocAll "Link-p" heating_hps in
    let cooling_hp_p := LocAll "Link-p" cooling_hps in
    heating_hps_cop <- lift (frame_columns (links_t_efficiency n) heating_hps) ;;
    cooling_hps_cop <- lift (frame_columns (links_t_efficiency n) cooling_hps) ;;
    let heating_hps_gen := MulFrame heating_hp_p heating_hps_cop in
    let cooling_hps_gen := MulFrame cooling_hp_p cooling_hps_cop in
    let lhs := Add heating_hps_gen cooling_hps_gen in
    let heating_hp_p_nom := Loc "Link-p_nom" heating_hps in
    let max_gen := MulFrame heating_hp_p_nom heating_hps_cop in
    let rhs := max_gen in
    add_constraints lhs LE (Expr rhs) ("Link-" ++ hp_type ++ "_cooling_generation").

End HeatPump.

(** [add_cooling_heat_pump_constraints(n, config)] *)
Definition add_cooling_heat_pump_constraints : M unit :=
  for_each ["ashp"; "gshp"]
    (fun hp_type =>
       HeatPump.add_hp_capacity_constraint hp_type ;;
       HeatPump.add_hp_generation_constraint hp_type).

(** [add_gshp_capacity_constraint(n, config)]. [fraction] is the
    dictionary built from the population layout file: the rounded ratio
    of urban to rural population by bus name. *)
Definition add_gshp_capacity_constraint (fraction : list (string * Q)) : M unit :=
  n <- get_net ;;
  let ashp := links_ending n "ashp" in
  let gshp := links_ending n "gshp" in
  if is_nil gshp then ret tt
  else
    if negb (Nat.eqb (length ashp) (length gshp)) then raise AssertionError
    else
      let urban_rural_fraction :=
        map (fun l =>
               option_map snd (find (fun kv => String.eqb (fst kv) (bus0 l)) fraction))
            gshp in
      let ashp_capacity := Loc "Link-p_nom" (map link_name ashp) in
      let gshp_capacity := Loc "Link-p_nom" (map link_name gshp) in
      let gshp_multiplier := urban_rural_fraction in
      let lhs := Sub ashp_capacity (MulValues gshp_capacity gshp_multiplier) in
      let rhs := 0%Q in
      add_constraints lhs GE (Const (Some rhs)) "Link-gshp_capacity_ratio".

(* ===================================================================== *)
(** ** Solve strategy dispatcher *)
(* ===================================================================== *)

(** [d.get(key, default)] and [d.pop(key, default)] as far as the value
    read goes. *)
Definition get {A} (entry : option A) (default : A) : A :=
  match entry with
  | Some v => v
  | None => default
  end.

(** What the backend's solve may touch: the network it writes results
    into and the model it builds. *)
Definition Solved : Type := Network * list Constraint.

Section Dispatcher.

(** [n.optimize] with the keyword arguments *)
Variable optimize : Kwargs -> Solved -> result (string * string) * Solved.

(** [n.optimize.optimize_transmission_expansion_iteratively] *)
Variable optimize_transmission_expansion_iteratively :
  Kwargs -> Solved -> result (string * string) * Solved.

(** [n.optimize.optimize_with_rolling_horizon] *)
Variable optimize_with_rolling_horizon : Kwargs -> Solved -> result unit * Solved.

(** Calling one entry point of the backend: the call is recorded, then
    the backend runs on the network and its model. *)
Definition call {A} (s : strategy) (f : Solved -> result A * Solved) : M A :=
  fun w =>
    let '(r, (n', m')) := f (net w, model w) in
    (r,
     {| net := n';
        model := m';
        records := records w;
        solver_calls := solver_calls w ++ [s];
        infeasibility_reports := infeasibility_reports w |}).

(** The network object after [n.config = config; n.opts = opts]. *)
Definition set_context (n : Network) (c : Config) (o : list string) : Network :=
  {| config := Some c;
     opts := o;
     buses := buses n;
     generators := generators n;
     storage_units := storage_units n;
     links := links n;
     lines := lines n;
     loads := loads n;
     stores := stores n;
     snapshots := snapshots n;
     investment_periods := investment_periods n;
     loads_t_p_set := loads_t_p_set n;
     links_t_efficiency := links_t_efficiency n;
     get_active_assets := get_active_assets n |}.

(** [n.config = config; n.opts = opts] *)
Definition attach (c : Config) (o : list string) : M unit :=
  fun w =>
    (Ok tt,
     {| net := set_context (net w) c o;
        model := model w;
        records := records w;
        solver_calls := solver_calls w;
        infeasibility_reports := infeasibility_reports w |}).

(** [kwargs["horizon"] = h; kwargs["overlap"] = o] *)
Definition set_rolling (k : Kwargs) (h o : Z) : Kwargs :=
  {| kw_caller := kw_caller k;
     kw_multi_investment_periods := kw_multi_investment_periods k;
     kw_solver_options := kw_solver_options k;
     kw_solver_name := kw_solver_name k;
     kw_extra_functionality := kw_extra_functionality k;
     kw_transmission_losses := kw_transmission_losses k;
     kw_linearized_unit_commitment := kw_linearized_unit_commitment k;
     kw_assign_all_duals := kw_assign_all_duals k;
     kw_horizon := Some h;
     kw_overlap := Some o;
     kw_track_iterations := kw_track_iterations k;
     kw_min_iterations := kw_min_iterations k;
     kw_max_iterations := kw_max_iterations k |}.

(** [kwargs["track_iterations"] = t; kwargs["min_iterations"] = lo;
    kwargs["max_iterations"] = hi] *)
Definition set_iterations (k : Kwargs) (t : tuple1 bool) (lo hi : tuple1 Z) : Kwargs :=
  {| kw_caller := kw_caller k;
     kw_multi_investment_periods := kw_multi_investment_periods k;
     kw_solver_options := kw_solver_options k;
     kw_solver_name := kw_solver_name k;
     kw_extra_functionality := kw_extra_functionality k;
     kw_transmission_losses := kw_transmission_losses k;
     kw_linearized_unit_commitment := kw_linearized_unit_commitment k;
     kw_assign_all_duals := kw_assign_all_duals k;
     kw_horizon := kw_horizon k;
     kw_overlap := kw_overlap k;
     kw_track_iterations := Some t;
     kw_min_iterations := Some lo;
     kw_max_iterations := Some hi |}.

(** The keyword arguments assembled before the strategy is chosen. *)
Definition base_kwargs (n : Network) (config : Config) (solving : Solving)
    (kwargs : list (string * string)) (kw_opts : list (string * string)) : Kwargs :=
  let cf_solving := options solving in
  {| kw_caller := kwargs;
     kw_multi_investment_periods :=
       if Nat.ltb 1 (length (investment_periods n))
       then Some (String.eqb (foresight config) "perfect")
       else None;
     kw_solver_options := Some kw_opts;
     kw_solver_name := Some (solver_name solving);
     kw_extra_functionality := Some extra_functionality;
     kw_transmission_losses := Some (get (transmission_losses cf_solving) false);
     kw_linearized_unit_commitment :=
       Some (get (linearized_unit_commitment cf_solving) false);
     kw_assign_all_duals := Some (get (assign_all_duals cf_solving) false);
     kw_horizon := None;
     kw_overlap := None;
     kw_track_iterations := None;
     kw_min_iterations := None;
     kw_max_iterations := None |}.

(** [solving["solver_options"][set_of_options] if set_of_options else
    {}] *)
Definition lookup_solver_options (solving : Solving) : result (list (string * string)) :=
  let set_of_options := solver_options_set solving in
  if String.eqb set_of_options "" then Ok []
  else match find (fun kv => String.eqb (fst kv) set_of_options)
                  (solver_options solving) with
       | Some kv => Ok (snd kv)
       | None => Raise (KeyError set_of_options)
       end.

(** [solve_network(n, config, solving, opts)] with further keyword
    arguments. *)
Definition solve_network (config : Config) (solving : Solving) (opts : list string)
    (kwargs : list (string * string)) : M Network :=
  let cf_solving := options solving in
  n <- get_net ;;
  kw_opts <- lift (lookup_solver_options solving) ;;
  let kwargs := base_kwargs n config solving kwargs kw_opts in
  let rolling_horizon := get (rolling_horizon cf_solving) false in
  let skip_iterations := get (skip_iterations cf_solving) false in
  skip_iterations <-
    (if negb (existsb s_nom_extendable (lines n)) then
       log INFO "No expandable lines found. Skipping iterative solving." [] ;;
       ret true
     else ret skip_iterations) ;;
  attach config opts ;;
  sc <-
    (if rolling_horizon then
       let kwargs :=
         set_rolling kwargs (get (horizon cf_solving) 365) (get (overlap cf_solving) 0) in
       call (RollingHorizon kwargs) (optimize_with_rolling_horizon kwargs) ;;
       ret ("", "")
     else if skip_iterations then
       call (Direct kwargs) (optimize kwargs)
     else
       let kwargs :=
         set_iterations kwargs
           (Tuple1 (get (track_iterations cf_solving) false))
           (Tuple1 (get (min_iterations cf_solving) 4))
           (Tuple1 (get (max_iterations cf_solving) 6)) in
       call (Iterative kwargs) (optimize_transmission_expansion_iteratively kwargs)) ;;
  let '(status, condition) := sc in
  (if negb (String.eqb status "ok") && negb rolling_horizon then
     log WARNING "Solving status '{}' with termination condition '{}'"
       [AStr status; AStr condition]
   else ret tt) ;;
  (if Str.contains "infeasible" condition then
     print_infeasibilities ;;
     raise (RuntimeError "Solving status 'infeasible'")
   else ret tt) ;;
  n <- get_net ;;
  ret n.

End Dispatcher.

(* ===================================================================== *)
(** ** Specification-side notions and sample networks *)
(* ===================================================================== *)

Local Open Scope list_scope.

(** A bus answers a token list when some token equals its country code,
    its state code, its interconnect name put in lower case, or its NERC
    region code. *)
Definition token_match (region_list : list string) (b : Bus) : Prop :=
  exists t, In t region_list /\
            (t = country b \/ t = reeds_state b
             \/ t = Str.lower (interconnect b) \/ t = nerc_reg b).

(** The resolver's rule in the words of the specification: the
    interconnect name is compared without regard to case, and the token
    [all] selects every bus. *)
Definition resolve_case_insensitive (region_list : list string) (b : Bus) : bool :=
  existsb
    (fun t =>
       String.eqb t (country b)
       || String.eqb t (reeds_state b)
       || String.eqb (Str.lower t) (Str.lower (interconnect b))
       || String.eqb t (nerc_reg b))
    region_list
  || Str.isin "all" region_list.

(** A store around a network: empty model, empty log, no backend call
    yet. *)
Definition fresh (n : Network) : World :=
  {| net := n;
     model := [];
     records := [];
     solver_calls := [];
     infeasibility_reports := 0%nat |}.

Definition western_bus : Bus :=
  {| bus_name := "p1"; country := "p1"; reeds_state := "CA";
     interconnect := "Western"; nerc_reg := "WECC" |}.

Definition one_bus_network : Network :=
  {| config := None;
     opts := [];
     buses := [western_bus];
     generators := [];
     storage_units := [];
     links := [];
     lines := [];
     loads := [];
     stores := [];
     snapshots := [];
     investment_periods := [];
     loads_t_p_set := [];
     links_t_efficiency := [];
     get_active_assets := fun _ _ => Ok (fun _ => true) |}.

Definition sample_generators : list Component :=
  [ {| name := "p1 coal"; bus := "p1"; carrier := "coal";
       p_nom_extendable := false; p_nom := 500 |};
    {| name := "p1 solar"; bus := "p1"; carrier := "solar";
       p_nom_extendable := true; p_nom := 0 |} ].

Definition sample_network : Network :=
  {| config := None;
     opts := [];
     buses := [western_bus];
     generators := sample_generators;
     storage_units := [];
     links := [];
     lines := [];
     loads := [ {| load_name := "p1 load"; load_bus := "p1" |} ];
     stores := [];
     snapshots := [ {| period := 2030; timestep := 0 |};
                    {| period := 2030; timestep := 1 |} ];
     investment_periods := [2030];
     loads_t_p_set := [ [300%Q]; [400%Q] ];
     links_t_efficiency := [];
     get_active_assets := fun _ _ => Ok (fun _ => true) |}.

(** [m], run on a store whose network is [n], leaves the network alone
    and only appends constraints satisfying [P] to the model. *)
Definition appends_at {A} (n : Network) (P : Constraint -> Prop) (m : M A) : Prop :=
  forall w r w', net w = n -> m w = (r, w') ->
    net w' = n /\ exists new, model w' = model w ++ new /\ Forall P new.

(** A computation that, on a store whose network is [n], changes nothing
    and returns normally. *)
Definition skips_at (n : Network) (m : M unit) : Prop :=
  forall w, net w = n -> m w = (Ok tt, w).

(** The load summed over every snapshot of a planning horizon and every
    load attached to one of the region's buses. *)
Definition summed_load (n : Network) (planning_horizon : Z) (region_index : list string) : Q :=
  Qsum
    (map (fun sr =>
            Qsum (map snd
                      (filter (fun lv => Str.isin (load_bus (fst lv)) region_index)
                              (combine (loads n) (snd sr)))))
         (filter (fun sr => Z.eqb (period (fst sr)) planning_horizon)
                 (combine (snapshots n) (loads_t_p_set n)))).

(** The load frame has one value per load in every row. *)
Definition p_set_well_formed (n : Network) : Prop :=
  Forall (fun r => length r = length (loads n)) (loads_t_p_set n).

(** What a constraint registered for a portfolio-standard row looks
    like. *)
Definition rps_constraint (n : Network) (row : PortfolioStandard) (c : Constraint) : Prop :=
  let region_index :=
    index (get_region_buses n (Str.split_strip (ps_region row))) in
  exists demand,
    region_demand n (ps_planning_horizon row) region_index = Ok demand
    /\ rhs c = Const (Some (ps_pct row * demand)%Q)
    /\ csense c = GE
    /\ cname c = ("GlobalConstraint-" ++ ps_name row ++ "_"
                   ++ Str.of_Z (ps_planning_horizon row) ++ "_rps_limit")%string
    /\ (p_set_well_formed n ->
        (demand == summed_load n (ps_planning_horizon row) region_index)%Q).

Definition half_solar_standard : PortfolioStandard :=
  {| ps_name := "CA"; ps_region := "CA, TX"; ps_carrier := "solar , onwind";
     ps_planning_horizon := 2030; ps_pct := 1 # 2 |}.

Definition void_standard : PortfolioStandard :=
  {| ps_name := "CA"; ps_region := "CA"; ps_carrier := "solar";
     ps_planning_horizon := 2030; ps_pct := 0 |}.

Definition sample_config : Config :=
  {| foresight := "perfect"; SAFE_reservemargin := 1 # 10; co2_policy := None |}.

Definition texas_standard : PortfolioStandard :=
  {| ps_name := "TX"; ps_region := "TX"; ps_carrier := "solar";
     ps_planning_horizon := 2030; ps_pct := 1 # 2 |}.

(** The extendable links whose name contains [battery charger], in table
    order. *)
Definition chargers_ext (n : Network) : list Link :=
  filter link_p_nom_extendable
         (filter (fun l => Str.contains "battery charger" (link_name l)) (links n)).

(** The extendable links whose name contains [battery discharger], in
    table order. *)
Definition dischargers_ext (n : Network) : list Link :=
  filter link_p_nom_extendable
         (filter (fun l => Str.contains "battery discharger" (link_name l)) (links n)).

(** The capacity variable of a link. *)
Definition link_capacity (l : Link) : Var := mkVar "Link-p_nom" None (link_name l).

(** The constraint that [add_battery_constraints] hands to the backend
    for a network. *)
Definition charger_ratio (n : Network) : Constraint :=
  {| cname := "Link-charger_ratio";
     lhs := Sub (Loc "Link-p_nom" (map link_name (chargers_ext n)))
                (MulValues (Loc "Link-p_nom" (map link_name (dischargers_ext n)))
                           (map (fun l => Some (efficiency l)) (dischargers_ext n)));
     csense := EQ;
     rhs := Const (Some 0%Q) |}.

Definition battery_charger : Link :=
  {| link_name := "p1 battery charger"; bus0 := "p1";
     link_p_nom_extendable := true; efficiency := 9 # 10 |}.

Definition battery_discharger : Link :=
  {| link_name := "p1 battery discharger"; bus0 := "p1 battery";
     link_p_nom_extendable := true; efficiency := 9 # 10 |}.

Definition battery_network : Network :=
  {| config := None;
     opts := [];
     buses := [western_bus];
     generators := [];
     storage_units := [];
     links := [battery_charger; battery_discharger];
     lines := [];
     loads := [];
     stores := [];
     snapshots := [];
     investment_periods := [2030];
     loads_t_p_set := [];
     links_t_efficiency := [];
     get_active_assets := fun _ _ => Ok (fun _ => true) |}.

(** The two calls made for one heat-pump type. *)
Definition hp_phase (hp_type : string) : M unit :=
  HeatPump.add_hp_capacity_constraint hp_type ;;
  HeatPump.add_hp_generation_constraint hp_type.

Definition ashp_named (c : Constraint) : Prop :=
  cname c = "Link-ashp_cooling_capacity"%string
  \/ cname c = "Link-ashp_cooling_generation"%string.

Definition lopsided_network : Network :=
  {| config := None;
     opts := [];
     buses := [western_bus];
     generators := [];
     storage_units := [];
     links := [ {| link_name := "p1 res-space-ashp"; bus0 := "p1";
                   link_p_nom_extendable := true; efficiency := 3 |};
                {| link_name := "p1 com-space-ashp"; bus0 := "p1";
                   link_p_nom_extendable := true; efficiency := 3 |};
                {| link_name := "p1 res-space-ashp-cooling"; bus0 := "p1";
                   link_p_nom_extendable := true; efficiency := 3 |} ];
     lines := [];
     loads := [];
     stores := [];
     snapshots := [];
     investment_periods := [2030];
     loads_t_p_set := [];
     links_t_efficiency := [];
     get_active_assets := fun _ _ => Ok (fun _ => true) |}.

Definition texas_2040_limit : Co2Policy :=
  {| co2_sector := "all"; co2_state := "TX"; co2_year := 2040; co2_limit_mmt := 1 |}.

Definition texas_2030_limit : Co2Policy :=
  {| co2_sector := "all"; co2_state := "TX"; co2_year := 2030; co2_limit_mmt := 10 |}.

Definition california_2040_limit : Co2Policy :=
  {| co2_sector := "all"; co2_state := "CA"; co2_year := 2040; co2_limit_mmt := 5 |}.

Definition policy_config (df : list Co2Policy) : Config :=
  {| foresight := "perfect"; SAFE_reservemargin := 1 # 10; co2_policy := Some df |}.

(** The entry point and keyword arguments that [solve_network] settles
    on, as a function of the solving options and the lines of the
    network. *)
Definition chosen_strategy (n : Network) (cfg : Config) (solving : Solving)
    (kwargs kw_opts : list (string * string)) : strategy :=
  let cf := options solving in
  let base := base_kwargs n cfg solving kwargs kw_opts in
  if get (rolling_horizon cf) false then
    RollingHorizon (set_rolling base (get (horizon cf) 365) (get (overlap cf) 0))
  else if get (skip_iterations cf) false || negb (existsb s_nom_extendable (lines n)) then
    Direct base
  else
    Iterative (set_iterations base
                 (Tuple1 (get (track_iterations cf) false))
                 (Tuple1 (get (min_iterations cf) 4))
                 (Tuple1 (get (max_iterations cf) 6))).

(** The selection rule in the words of the specification, in which only
    the rolling-horizon request and the lines decide. *)
Definition strategy_kind_by_spec (n : Network) (solving : Solving) : nat :=
  if get (rolling_horizon (options solving)) false then 2%nat
  else if negb (existsb s_nom_extendable (lines n)) then 0%nat
  else 1%nat.

(** [0] for the direct solve, [1] for the iterative one, [2] for the
    rolling horizon. *)
Definition strategy_kind (s : strategy) : nat :=
  match s with
  | Direct _ => 0%nat
  | Iterative _ => 1%nat
  | RollingHorizon _ => 2%nat
  end.

(** The selection rule with the request to skip iterations taken into
    account: the rolling horizon when requested; otherwise the direct
    solve when iterations are to be skipped or no line is extendable;
    otherwise the iterative solve. *)
Definition strategy_kind_with_skip (n : Network) (solving : Solving) : nat :=
  if get (rolling_horizon (options solving)) false then 2%nat
  else if get (skip_iterations (options solving)) false
          || negb (existsb s_nom_extendable (lines n)) then 0%nat
  else 1%nat.

(** The type of the two backend entry points that answer with a status
    and a termination condition. *)
Definition solver : Type := Kwargs -> Solved -> result (string * string) * Solved.

(** The entry point of a strategy answers with a status and a
    termination condition; the rolling horizon answers with no pair. *)
Definition returns (optimize optimize_transmission_expansion_iteratively : solver)
    (s : strategy) (before : Solved) (status condition : string) (after : Solved) : Prop :=
  match s with
  | Direct k => optimize k before = (Ok (status, condition), after)
  | Iterative k =>
      optimize_transmission_expansion_iteratively k before
      = (Ok (status, condition), after)
  | RollingHorizon _ => False
  end.

(** The warning that [solve_network] logs for a status and a
    termination condition. *)
Definition status_warning (status condition : string) : LogRecord :=
  {| levelname := WARNING;
     template := "Solving status '{}' with termination condition '{}'";
     args := [AStr status; AStr condition] |}.

Definition expandable_network : Network :=
  {| config := None;
     opts := [];
     buses := [western_bus];
     generators := sample_generators;
     storage_units := [];
     links := [];
     lines := [ {| line_name := "p1-p2"; s_nom_extendable := true |} ];
     loads := [];
     stores := [];
     snapshots := [ {| period := 2030; timestep := 0 |} ];
     investment_periods := [2030];
     loads_t_p_set := [ [] ];
     links_t_efficiency := [];
     get_active_assets := fun _ _ => Ok (fun _ => true) |}.

Definition no_options : SolvingOptions :=
  {| rolling_horizon := None;
     skip_iterations := None;
     transmission_losses := None;
     linearized_unit_commitment := None;
     assign_all_duals := None;
     horizon := None;
     overlap := None;
     track_iterations := None;
     min_iterations := None;
     max_iterations := None |}.

Definition skip_options : SolvingOptions :=
  {| rolling_horizon := None;
     skip_iterations := Some true;
     transmission_losses := None;
     linearized_unit_commitment := None;
     assign_all_duals := None;
     horizon := None;
     overlap := None;
     track_iterations := None;
     min_iterations := None;
     max_iterations := None |}.

Definition solving_with (o : SolvingOptions) : Solving :=
  {| solver_name := "highs";
     solver_options_set := "";
     solver_options := [];
     options := o |}.

(** A backend whose solves answer with a fixed status and condition and
    leave the network and model alone. *)
Definition answering (status condition : string)
  : Kwargs -> Solved -> result (string * string) * Solved :=
  fun _ s => (Ok (status, condition), s).

Definition rolling_quietly : Kwargs -> Solved -> result unit * Solved :=
  fun _ s => (Ok tt, s).

(* ===================================================================== *)
(** ** Further functions of the module *)
(* ===================================================================== *)

(** [sep.join(xs)] *)
Fixpoint join (sep : string) (xs : list string) : string :=
  match xs with
  | [] => EmptyString
  | [x] => x
  | x :: r => (x ++ sep ++ join sep r)%string
  end.

(** [c in s] for a character. *)
Fixpoint has_char (c : ascii) (s : string) : bool :=
  match s with
  | EmptyString => false
  | String d r => Ascii.eqb d c || has_char c r
  end.

(** [n.buses.groupby(key)[column].apply(lambda x: ", ".join(x))
    .to_dict()]: for every value of the key column, the entries of the
    other column over the buses with that key, in table order, joined by
    a comma and a space. The dictionary is used for lookups only. *)
Definition memberships (key column : Bus -> string) (bs : list Bus)
  : list (string * string) :=
  map (fun k => (k, join ", " (map column (filter (fun b => String.eqb (key b) k) bs))))
      (unique String.eqb (map key bs)).

(** [d.get(k)], and [Series.map(d)] at one value, [None] being the
    missing value. *)
Definition lookup {A} (d : list (string * A)) (k : string) : option A :=
  option_map snd (find (fun kv => String.eqb (fst kv) k) d).

(** A row of the table read from [snakemake.input.rps_reeds]. *)
Record RpsReeds := {
  rr_st : string;
  rr_t : Z;
  rr_rps_all : Q;
  rr_rps_solar : Q;
  rr_rps_wind : Q
}.

(** [rps_carriers] of [add_RPS_constraints]. *)
Definition rps_carriers : list string :=
  ["onwind"; "offwind"; "offwind_floating"; "solar"; "hydro"; "geothermal";
   "biomass"; "EGS"]%string.

(** The preparation of [rps_reeds] in [add_RPS_constraints]: the region
    of a row is the membership string of its state, rows of a state
    without bus are dropped, the carrier is the joined [rps_carriers],
    and the columns are renamed. [reeds_zone] is the column of that name
    of [n.buses]. *)
Definition prepare_rps_reeds (reeds_zone : Bus -> string) (n : Network)
    (rps_reeds : list RpsReeds) : list PortfolioStandard :=
  let state_memberships := memberships reeds_state reeds_zone (buses n) in
  flat_map
    (fun r =>
       match lookup state_memberships (rr_st r) with
       | Some region =>
           [{| ps_name := rr_st r;
               ps_region := region;
               ps_carrier := join ", " rps_carriers;
               ps_planning_horizon := rr_t r;
               ps_pct := rr_rps_all r |}]
       | None => []
       end)
    rps_reeds.

(** The scenario tokens as the entry point of the script derives them
    from the wildcards: the hyphen-separated pieces of [opts], followed by
    those of [sector_opts] when that wildcard exists, without the empty
    ones; for a sector other than [E] the tokens that start with [Co2L]
    are removed and the token [sector] is appended. *)
Definition main_opts (wildcards_opts : string) (sector_opts : option string)
    (sector : string) : list string :=
  let opts := wildcards_opts in
  let opts :=
    match sector_opts with
    | Some so => (opts ++ "-" ++ so)%string
    | None => opts
    end in
  let opts := filter (fun o => negb (String.eqb o "")) (Str.split "-" opts) in
  if negb (String.eqb sector "E") then
    filter (fun x => negb (Str.startswith "Co2L" x)) opts ++ ["sector"%string]
  else opts.

(** [_format_link_name(s)] of [add_ng_import_export_limits] *)
Definition format_link_name (s : string) : result string :=
  match Str.split "-" s with
  | s0 :: s1 :: _ => Ok (s0 ++ " " ++ s1 ++ " gas")%string
  | _ => Raise IndexError
  end.

(** A row of the trade data: state pair and volume. *)
Record Trade := {
  trade_state : string;
  trade_value : Q
}.

(** [_format_domestic_data(prod, link_suffix)] of
    [add_ng_import_export_limits]: the table of right-hand sides by link
    name. [NG_MWH_2_MMCF] is the constant of that name. *)
Fixpoint format_domestic_data (NG_MWH_2_MMCF : Q) (prod : list Trade)
    (link_suffix : option string) : result (list (string * Q)) :=
  match prod with
  | [] => Ok []
  | r :: rest =>
      match format_link_name (trade_state r) with
      | Raise e => Raise e
      | Ok link =>
          match format_domestic_data NG_MWH_2_MMCF rest link_suffix with
          | Raise e => Raise e
          | Ok rows =>
              let link :=
                match link_suffix with
                | Some sfx => if String.eqb sfx "" then link else (link ++ sfx)%string
                | None => link
                end in
              Ok ((link, (trade_value r * 1000 / NG_MWH_2_MMCF)%Q) :: rows)
          end
      end
  end.

(* ===================================================================== *)
(** ** Notions and sample data for the further properties *)
(* ===================================================================== *)

(** A token that survives the round trip through a membership string:
    it holds no comma and [strip] leaves it as it is. *)
Definition clean_token (x : string) : Prop :=
  has_char "," x = false /\ Str.strip x = x.

Definition ca_rps : RpsReeds :=
  {| rr_st := "CA"; rr_t := 2030; rr_rps_all := 1 # 2;
     rr_rps_solar := 0; rr_rps_wind := 0 |}.

(** The pieces from which the tokens are taken. *)
Definition wildcard_pieces (wildcards_opts : string) (sector_opts : option string)
  : list string :=
  Str.split "-" wildcards_opts
  ++ match sector_opts with
     | Some so => Str.split "-" so
     | None => []
     end.

Definition sample_trade : list Trade :=
  [ {| trade_state := "CA-NV"; trade_value := 12 |};
    {| trade_state := "USA"; trade_value := 5 |} ].

(** The buses a portfolio-standard row resolves to. *)
Definition rps_region (n : Network) (row : PortfolioStandard) : list Bus :=
  get_region_buses n (Str.split_strip (ps_region row)).

(** The generators on the buses of the row's region. *)
Definition rps_region_gens (n : Network) (row : PortfolioStandard) : list Component :=
  filter (fun g => Str.isin (bus g) (index (rps_region n row))) (generators n).

(** The generators of the region whose carrier the row lists. *)
Definition rps_eligible (n : Network) (row : PortfolioStandard) : list Component :=
  filter (fun g => Str.isin (carrier g) (Str.split_strip (ps_carrier row)))
         (rps_region_gens n row).

(** The rows for which the loop body goes on to register: the region has
    a bus and a generator. *)
Definition rps_compiled (n : Network) (row : PortfolioStandard) : bool :=
  negb (is_nil (rps_region n row)) && negb (is_nil (rps_region_gens n row)).

(** The rows left by the two filters on the table. *)
Definition rps_surviving (planning_horizons : list Z) (ps : list PortfolioStandard)
  : list PortfolioStandard :=
  filter (fun r => Zisin (ps_planning_horizon r) planning_horizons)
         (filter (fun r => negb (Qle_bool (ps_pct r) 0)) ps).

(** The constraint registered for a row, given the region demand. *)
Definition rps_registered (n : Network) (row : PortfolioStandard) (demand : Q) : Constraint :=
  {| cname := ("GlobalConstraint-" ++ ps_name row ++ "_"
               ++ Str.of_Z (ps_planning_horizon row) ++ "_rps_limit")%string;
     lhs := Sum (Sel "Generator-p" (ps_planning_horizon row)
                     (map name (rps_eligible n row)));
     csense := GE;
     rhs := Const (Some (ps_pct row * demand)%Q) |}.

(** The record logged for a row. *)
Definition rps_info (row : PortfolioStandard) : LogRecord :=
  {| levelname := INFO;
     template := "Adding RPS {}_{} for {}.";
     args := [AStr (ps_name row); AInt (ps_planning_horizon row);
              AInt (ps_planning_horizon row)] |}.

(** The dispatch variables of the eligible generators over the
    snapshots of the row's horizon. *)
Definition rps_variables (n : Network) (row : PortfolioStandard) : list Var :=
  flat_map (fun s => map (fun l => mkVar "Generator-p" (Some s) l)
                         (map name (rps_eligible n row)))
           (period_snapshots (snapshots n) (ps_planning_horizon row)).

Definition wind_standard : PortfolioStandard :=
  {| ps_name := "CA"; ps_region := "CA"; ps_carrier := "onwind";
     ps_planning_horizon := 2030; ps_pct := 1 # 2 |}.

Definition solar_2040_standard : PortfolioStandard :=
  {| ps_name := "CA"; ps_region := "CA"; ps_carrier := "solar";
     ps_planning_horizon := 2040; ps_pct := 1 # 2 |}.

Definition gas_generators : list Component :=
  [ {| name := "p1 coal"; bus := "p1"; carrier := "coal";
       p_nom_extendable := false; p_nom := 100 |};
    {| name := "p1 OCGT"; bus := "p1"; carrier := "OCGT";
       p_nom_extendable := true; p_nom := 0 |} ].

Definition gas_network : Network :=
  {| config := None;
     opts := [];
     buses := [western_bus];
     generators := gas_generators;
     storage_units := [];
     links := [];
     lines := [];
     loads := [ {| load_name := "p1 load"; load_bus := "p1" |} ];
     stores := ["CA res-co2"; "CA com-co2"; "CA pwr-ch4"; "TX res-co2"; "CA heat"]%string;
     snapshots := [ {| period := 2030; timestep := 0 |};
                    {| period := 2030; timestep := 1 |} ];
     investment_periods := [2030];
     loads_t_p_set := [ [300%Q]; [400%Q] ];
     links_t_efficiency := [];
     get_active_assets := fun _ _ => Ok (fun _ => true) |}.

(** What a registered emission limit looks like: it comes from a policy
    row whose year is an investment period, bounds from above, by the
    row's limit in tonnes, the summed level at the last snapshot of that
    year of stores of the network whose name ends with [-co2] or [-ch4],
    and for a state other than [USA] those stores all start with the
    state. *)
Definition co2_registered (n : Network) (df : list Co2Policy) (c : Constraint) : Prop :=
  exists row snapshot sel,
    In row df
    /\ In (co2_year row) (investment_periods n)
    /\ last_snapshot n (co2_year row) = Ok snapshot
    /\ lhs c = Sum (LocAt "Store-e" snapshot sel)
    /\ csense c = LE
    /\ rhs c = Const (Some (co2_limit_mmt row * (1000000 # 1))%Q)
    /\ (forall s, In s sel ->
                  In s (stores n)
                  /\ (Str.endswith "-co2" s = true \/ Str.endswith "-ch4" s = true))
    /\ (SectorCo2.upper (co2_state row) <> "USA"%string ->
        forall s, In s sel -> Str.startswith (co2_state row) s = true).

(** A computation that, on a store whose network is [n], ends in an
    exception. *)
Definition raises_at {A} (n : Network) (m : M A) : Prop :=
  forall w, net w = n -> exists e w', m w = (Raise e, w').

Definition heating_link : Link :=
  {| link_name := "p1 res-space-ashp"; bus0 := "p1";
     link_p_nom_extendable := true; efficiency := 3 |}.

Definition cooling_link : Link :=
  {| link_name := "p1 res-space-ashp-cooling"; bus0 := "p1";
     link_p_nom_extendable := true; efficiency := 3 |}.

Definition heat_pump_network : Network :=
  {| config := None;
     opts := [];
     buses := [western_bus];
     generators := [];
     storage_units := [];
     links := [heating_link; cooling_link];
     lines := [];
     loads := [];
     stores := [];
     snapshots := [ {| period := 2030; timestep := 0 |} ];
     investment_periods := [2030];
     loads_t_p_set := [ [] ];
     links_t_efficiency := [];
     get_active_assets := fun _ _ => Ok (fun _ => true) |}.

(** The multiplier that [add_gshp_capacity_constraint] looks up for a
    ground-source link: the entry of the population dictionary for the
    link's first bus. *)
Definition gshp_fraction (fraction : list (string * Q)) (l : Link) : option Q :=
  option_map snd (find (fun kv => String.eqb (fst kv) (bus0 l)) fraction).

Definition air_source_link : Link :=
  {| link_name := "p1 res-space-ashp"; bus0 := "p1";
     link_p_nom_extendable := true; efficiency := 3 |}.

Definition ground_source_link : Link :=
  {| link_name := "p1 res-space-gshp"; bus0 := "p1";
     link_p_nom_extendable := true; efficiency := 4 |}.

Definition two_source_network : Network :=
  {| config := None;
     opts := [];
     buses := [western_bus];
     generators := [];
     storage_units := [];
     links := [air_source_link; ground_source_link];
     lines := [];
     loads := [];
     stores := [];
     snapshots := [ {| period := 2030; timestep := 0 |} ];
     investment_periods := [2030];
     loads_t_p_set := [ [] ];
     links_t_efficiency := [];
     get_active_assets := fun _ _ => Ok (fun _ => true) |}.

Definition extendable_heat_pump_network : Network :=
  {| config := None;
     opts := [];
     buses := [western_bus];
     generators := [];
     storage_units := [];
     links := [heating_link];
     lines := [];
     loads := [];
     stores := [];
     snapshots := [];
     investment_periods := [2030];
     loads_t_p_set := [];
     links_t_efficiency := [];
     get_active_assets := fun _ _ => Ok (fun _ => true) |}.

(** The last character of a string. *)
Fixpoint last_ascii (s : string) : option ascii :=
  match s with
  | EmptyString => None
  | String c r =>
      match last_ascii r with
      | None => Some c
      | Some d => Some d
      end
  end.

(** The record logged when no line is extendable. *)
Definition no_expandable_lines : LogRecord :=
  {| levelname := INFO;
     template := "No expandable lines found. Skipping iterative solving.";
     args := [] |}.

(** The records that [solve_network] logs before it calls the
    backend. *)
Definition lines_info (n : Network) : list LogRecord :=
  if existsb s_nom_extendable (lines n) then [] else [no_expandable_lines].

Definition misnamed_solving : Solving :=
  {| solver_name := "highs";
     solver_options_set := "highs-default";
     solver_options := [("gurobi-default"%string, [])];
     options := no_options |}.

Definition rolling_options : SolvingOptions :=
  {| rolling_horizon := Some true;
     skip_iterations := None;
     transmission_losses := None;
     linearized_unit_commitment := None;
     assign_all_duals := None;
     horizon := Some 168;
     overlap := None;
     track_iterations := None;
     min_iterations := None;
     max_iterations := None |}.

(** A backend whose solves fail. *)
Definition failing (e : exn) : solver := fun _ s => (Raise e, s).

(** The mask of [get_region_buses]. *)
Definition region_mask (region_list : list string) (b : Bus) : bool :=
  Str.isin (country b) region_list
  || Str.isin (reeds_state b) region_list
  || Str.isin (Str.lower (interconnect b)) region_list
  || Str.isin (nerc_reg b) region_list
  || (if Str.isin "all" region_list then true else false).

(** The buses a reserve-margin row resolves to. *)
Definition prm_region_buses (n : Network) (row : ReserveMargin) : list Bus :=
  get_region_buses n (Str.split_strip (prm_region row)).

(** The first row of a regional table whose region has a bus. *)
Definition first_row_with_bus (n : Network) (rows : list ReserveMargin)
  : option ReserveMargin :=
  find (fun row => negb (is_nil (prm_region_buses n row))) rows.

Definition california_margin : ReserveMargin :=
  {| prm_name := "CA"; prm_region := "CA"; prm_planning_horizon := 2030; prm := 1 # 10 |}.

Definition california_margin_2040 : ReserveMargin :=
  {| prm_name := "CA"; prm_region := "CA"; prm_planning_horizon := 2040; prm := 1 # 10 |}.

(** An upper-case letter of the ASCII range. *)
Definition is_upper (c : ascii) : bool :=
  let k := nat_of_ascii c in (Nat.leb 65 k && Nat.leb k 90)%bool.

(** The string holds an upper-case letter. *)
Fixpoint has_upper (s : string) : bool :=
  match s with
  | EmptyString => false
  | String c r => is_upper c || has_upper r
  end.

(* ===================================================================== *)
(** ** Basic facts *)
(* ===================================================================== *)

Lemma isin_In (x : string) (l : list string) :
  Str.isin x l = true <-> In x l.
Proof.
  unfold Str.isin. rewrite existsb_exists. split.
  - intros [y [Hy He]]. apply String.eqb_eq in He. now subst.
  - intros H. exists x. split; [assumption | apply String.eqb_refl].
Qed.

Lemma isin_nil (x : string) : Str.isin x [] = false.
Proof. reflexivity. Qed.

Lemma Zisin_In (z : Z) (l : list Z) : Zisin z l = true <-> In z l.
Proof.
  unfold Zisin. rewrite existsb_exists. split.
  - intros [y [Hy He]]. apply Z.eqb_eq in He. now subst.
  - intros H. exists z. split; [assumption | apply Z.eqb_refl].
Qed.

Lemma filter_all {A} (f : A -> bool) (l : list A) :
  (forall x, In x l -> f x = true) -> filter f l = l.
Proof.
  induction l as [|a l IH]; intros H; simpl; [reflexivity|].
  rewrite (H a (or_introl eq_refl)). f_equal. apply IH.
  intros x Hx. apply H. now right.
Qed.

Lemma filter_none {A} (f : A -> bool) (l : list A) :
  (forall x, In x l -> f x = false) -> filter f l = [].
Proof.
  induction l as [|a l IH]; intros H; simpl; [reflexivity|].
  rewrite (H a (or_introl eq_refl)). apply IH.
  intros x Hx. apply H. now right.
Qed.

(* ===================================================================== *)
(** ** Region resolver *)
(* ===================================================================== *)

(** The mask of [get_region_buses] at one bus, read as a proposition. *)
Lemma region_mask_spec (region_list : list string) (b : Bus) :
  Str.isin (country b) region_list
  || Str.isin (reeds_state b) region_list
  || Str.isin (Str.lower (interconnect b)) region_list
  || Str.isin (nerc_reg b) region_list
  || (if Str.isin "all" region_list then true else false) = true
  <-> In "all" region_list \/ token_match region_list b.
Proof.
  rewrite !orb_true_iff. unfold token_match.
  destruct (Str.isin "all" region_list) eqn:Hall.
  - apply isin_In in Hall. split; intros _; [now left | now right].
  - assert (Hn : ~ In "all" region_list).
    { intros H. apply isin_In in H. congruence. }
    rewrite !isin_In. split.
    + intros [[[[H|H]|H]|H]|H]; try discriminate; right;
        eexists; (split; [exact H|]); auto.
    + intros [H|[t [Ht H]]]; [contradiction|].
      destruct H as [H|[H|[H|H]]]; subst t; auto.
Qed.

(** C3, as amended: the resolver returns exactly the buses for which
    some token equals the country code, the state code, the interconnect
    name put in lower case, or the NERC region code, and every bus when
    the token [all] is in the list; a list that matches nothing gives the
    empty table. The token itself is compared as written. *)
Theorem get_region_buses_exact (n : Network) (region_list : list string) :
  (forall b, In b (get_region_buses n region_list) <->
             In b (buses n) /\ (In "all" region_list \/ token_match region_list b))
  /\ (In "all" region_list -> get_region_buses n region_list = buses n)
  /\ ((~ In "all" region_list /\ forall b, In b (buses n) -> ~ token_match region_list b) ->
      get_region_buses n region_list = []).
Proof.
  unfold get_region_buses. split; [|split].
  - intros b. rewrite filter_In, region_mask_spec. reflexivity.
  - intros Hall. apply filter_all. intros b _.
    apply region_mask_spec. now left.
  - intros [Hn Hno]. apply filter_none. intros b Hb.
    apply not_true_is_false. intros H. apply region_mask_spec in H.
    destruct H as [H|H]; [exact (Hn H) | exact (Hno b Hb H)].
Qed.

(** The amended statement at a concrete network: the lower-case token
    finds the bus, [all] finds it, an unknown token finds nothing. *)
Lemma get_region_buses_exact_witness :
  get_region_buses one_bus_network ["TX"; "all"] = [western_bus]
  /\ get_region_buses one_bus_network ["TX"] = [].
Proof.
  split.
  - apply (proj1 (proj2 (get_region_buses_exact one_bus_network ["TX"; "all"]))).
    simpl. right. left. reflexivity.
  - apply (proj2 (proj2 (get_region_buses_exact one_bus_network ["TX"]))).
    split.
    + simpl. intros [H|[]]. discriminate.
    + intros b Hb [t [Ht H]]. simpl in Hb. destruct Hb as [<-|[]].
      simpl in Ht. destruct Ht as [<-|[]].
      simpl in H. destruct H as [H|[H|[H|H]]]; discriminate.
Defined.

(** C3, as stated, fails: a token spelled exactly like the bus's
    interconnect name, capital included, selects nothing, although it
    matches that name without regard to case. *)
Lemma get_region_buses_case_sensitive :
  get_region_buses one_bus_network ["Western"]
  <> filter (resolve_case_insensitive ["Western"]) (buses one_bus_network).
Proof. vm_compute. discriminate. Qed.

(* ===================================================================== *)
(** ** Component filter *)
(* ===================================================================== *)

(** C4: when the network's activity query answers for the planning
    horizon, the filter returns the sub-table, in table order, of exactly
    the rows that are active, whose carrier is in the carrier list, whose
    bus is in the region buses and whose extendability flag equals the
    one asked for; the store, and with it the source table, is left as it
    was; an empty carrier list or an empty bus set gives the empty table
    and no exception. *)
Theorem filter_components_exact
    (ct : component_type) (planning_horizon : Z) (carrier_list region_buses : list string)
    (extendable : bool) (w : World) (active : string -> bool) :
  get_active_assets (net w) ct planning_horizon = Ok active ->
  exists mask,
    filter_components ct planning_horizon carrier_list region_buses extendable w
    = (Ok (filter mask (df (net w) ct)), w)
    /\ (forall c, mask c = true <->
                  active (name c) = true /\ In (carrier c) carrier_list
                  /\ In (bus c) region_buses /\ p_nom_extendable c = extendable)
    /\ (carrier_list = [] \/ region_buses = [] -> filter mask (df (net w) ct) = []).
Proof.
  intros Hact.
  exists (fun c => active (name c) && Str.isin (carrier c) carrier_list
                   && Str.isin (bus c) region_buses
                   && Bool.eqb (p_nom_extendable c) extendable).
  split; [|split].
  - unfold filter_components, bind, get_net, lift, ret. rewrite Hact. reflexivity.
  - intros c. rewrite !andb_true_iff, !isin_In, eqb_true_iff. tauto.
  - intros Hempty. apply filter_none. intros c _.
    destruct Hempty as [-> | ->]; rewrite isin_nil.
    + now rewrite andb_false_r.
    + now rewrite andb_false_r.
Qed.

(** The filter at a concrete network: the one extendable solar generator
    on the bus is returned and the store is unchanged. *)
Lemma filter_components_exact_witness :
  exists mask,
    filter_components Generator 2030 ["solar"] ["p1"] true (fresh sample_network)
    = (Ok (filter mask sample_generators), fresh sample_network)
    /\ (forall c, mask c = true <->
                  true = true /\ In (carrier c) ["solar"]
                  /\ In (bus c) ["p1"] /\ p_nom_extendable c = true)
    /\ (["solar"] = [] \/ ["p1"] = [] -> filter mask sample_generators = []).
Proof.
  exact (filter_components_exact Generator 2030 ["solar"] ["p1"] true
           (fresh sample_network) (fun _ => true) eq_refl).
Defined.

(** When the activity query raises, so does the filter, and the store is
    again unchanged. *)
Lemma filter_components_raises
    (ct : component_type) (planning_horizon : Z) (carrier_list region_buses : list string)
    (extendable : bool) (w : World) (e : exn) :
  get_active_assets (net w) ct planning_horizon = Raise e ->
  filter_components ct planning_horizon carrier_list region_buses extendable w
  = (Raise e, w).
Proof.
  intros H. unfold filter_components, bind, get_net, lift. now rewrite H.
Qed.

(* ===================================================================== *)
(** ** A logic for what a family registers *)
(* ===================================================================== *)

Lemma appends_ret {A} n P (a : A) : appends_at n P (ret a).
Proof.
  intros w r w' Hn H. inversion H; subst. split; [reflexivity|].
  exists []. now rewrite app_nil_r.
Qed.

Lemma appends_raise {A} n P (e : exn) : appends_at n P (@raise A e).
Proof.
  intros w r w' Hn H. inversion H; subst. split; [reflexivity|].
  exists []. now rewrite app_nil_r.
Qed.

Lemma appends_lift {A} n P (x : result A) : appends_at n P (lift x).
Proof.
  intros w r w' Hn H. inversion H; subst. split; [reflexivity|].
  exists []. now rewrite app_nil_r.
Qed.

Lemma appends_log n P l t a : appends_at n P (log l t a).
Proof.
  intros w r w' Hn H. inversion H; subst. split; [reflexivity|].
  exists []. simpl. now rewrite app_nil_r.
Qed.

Lemma appends_add n (P : Constraint -> Prop) l s r nm :
  P {| cname := nm; lhs := l; csense := s; rhs := r |} ->
  appends_at n P (add_constraints l s r nm).
Proof.
  intros HP w r0 w' Hn H. inversion H; subst. split; [reflexivity|].
  eexists. simpl. split; [reflexivity|]. now constructor.
Qed.

Lemma appends_bind {A B} n P (m : M A) (k : A -> M B) :
  appends_at n P m -> (forall a, appends_at n P (k a)) ->
  appends_at n P (bind m k).
Proof.
  intros Hm Hk w r w' Hn H. unfold bind in H.
  destruct (m w) as [[a|e] w1] eqn:E.
  - destruct (Hm w _ _ Hn E) as [Hn1 [new1 [Hm1 HP1]]].
    destruct (Hk a w1 _ _ Hn1 H) as [Hn2 [new2 [Hm2 HP2]]].
    split; [assumption|]. exists (new1 ++ new2).
    rewrite Hm2, Hm1, app_assoc. split; [reflexivity|].
    apply Forall_app. now split.
  - injection H as <- <-. exact (Hm w _ _ Hn E).
Qed.

Lemma appends_get_net {B} n P (k : Network -> M B) :
  appends_at n P (k n) -> appends_at n P (bind get_net k).
Proof.
  intros Hk w r w' Hn H. unfold bind, get_net in H. rewrite Hn in H.
  exact (Hk w r w' Hn H).
Qed.

Lemma appends_lift_bind {A B} n P (x : result A) (k : A -> M B) :
  (forall a, x = Ok a -> appends_at n P (k a)) ->
  appends_at n P (bind (lift x) k).
Proof.
  intros Hk w r w' Hn H. unfold bind, lift in H. destruct x as [a|e].
  - exact (Hk a eq_refl w r w' Hn H).
  - injection H as <- <-. split; [assumption|].
    exists []. now rewrite app_nil_r.
Qed.

Lemma appends_for_each {A} n P (xs : list A) (body : A -> M unit) :
  (forall x, In x xs -> appends_at n P (body x)) ->
  appends_at n P (for_each xs body).
Proof.
  induction xs as [|x xs IH]; intros Hb; simpl.
  - apply appends_ret.
  - apply appends_bind.
    + apply Hb. now left.
    + intros _. apply IH. intros y Hy. apply Hb. now right.
Qed.


(** Running a family on the store whose network is the one given. *)
Lemma appends_run {A} (P : Constraint -> Prop) (m : M A) (w : World) :
  appends_at (net w) P m ->
  net (snd (m w)) = net w
  /\ exists new, model (snd (m w)) = model w ++ new /\ Forall P new.
Proof.
  intros H. destruct (m w) as [r w'] eqn:E. exact (H w r w' eq_refl E).
Qed.

(* ===================================================================== *)
(** ** Sums over frames *)
(* ===================================================================== *)

Lemma zip_with_length {A B C} (f : A -> B -> C) (a : list A) (b : list B) :
  length a = length b -> length (zip_with f a b) = length a.
Proof.
  revert b. induction a as [|x a IH]; intros [|y b] H; simpl in *;
    try reflexivity; try discriminate.
  f_equal. apply IH. now injection H.
Qed.

Lemma Qsum_zip_plus (a b : list Q) :
  length a = length b -> (Qsum (zip_with Qplus a b) == Qsum a + Qsum b)%Q.
Proof.
  revert b. induction a as [|x a IH]; intros [|y b] H; simpl in *;
    try discriminate.
  - lra.
  - injection H as H. rewrite (IH b H). lra.
Qed.

Lemma Qsum_repeat_zero (k : nat) : (Qsum (repeat 0%Q k) == 0)%Q.
Proof. induction k as [|k IH]; simpl; [reflexivity | rewrite IH; lra]. Qed.

Lemma column_sums_length (k : nat) (rows : list (list Q)) :
  Forall (fun r => length r = k) rows -> length (column_sums k rows) = k.
Proof.
  induction 1 as [|r rows Hr _ IH]; simpl.
  - apply repeat_length.
  - unfold column_sums in *. simpl.
    rewrite zip_with_length; [exact Hr | now rewrite IH].
Qed.

Lemma Qsum_column_sums (k : nat) (rows : list (list Q)) :
  Forall (fun r => length r = k) rows ->
  (Qsum (column_sums k rows) == Qsum (map Qsum rows))%Q.
Proof.
  induction 1 as [|r rows Hr Hrows IH]; simpl.
  - apply Qsum_repeat_zero.
  - pose proof (column_sums_length k rows Hrows) as Hl.
    unfold column_sums in *. simpl.
    rewrite Qsum_zip_plus; [now rewrite IH | now rewrite Hl].
Qed.

Lemma select_columns_length {A} (mask : list bool) (row : list A) :
  length row = length mask ->
  length (select_columns mask row) = length (filter (fun b => b) mask).
Proof.
  revert row. induction mask as [|m mask IH]; intros [|x row] H; simpl in *;
    try reflexivity; try discriminate.
  injection H as H. destruct m; simpl; [f_equal|]; now apply IH.
Qed.

Lemma select_columns_combine {A B} (f : A -> bool) (cols : list A) (row : list B) :
  select_columns (map f cols) row
  = map snd (filter (fun cv => f (fst cv)) (combine cols row)).
Proof.
  revert row. induction cols as [|c cols IH]; intros [|x row]; simpl;
    try reflexivity.
  destruct (f c); simpl; now rewrite IH.
Qed.

(* ===================================================================== *)
(** ** Portfolio standards *)
(* ===================================================================== *)

Lemma region_demand_summed_load (n : Network) (h : Z) (ri : list string) (d : Q) :
  p_set_well_formed n ->
  region_demand n h ri = Ok d -> (d == summed_load n h ri)%Q.
Proof.
  unfold p_set_well_formed, region_demand, region_loads, loc_period, summed_load.
  intros Hwf.
  assert (Hrows : forall sr,
            In sr (filter (fun sr => Z.eqb (period (fst sr)) h)
                          (combine (snapshots n) (loads_t_p_set n))) ->
            length (snd sr) = length (loads n)).
  { intros [s r] Hin. apply filter_In in Hin. destruct Hin as [Hin _].
    apply in_combine_r in Hin. rewrite Forall_forall in Hwf. now apply Hwf. }
  destruct (filter _ (combine (snapshots n) (loads_t_p_set n))) as [|x l] eqn:E;
    [discriminate|].
  intros H. injection H as <-.
  eapply Qeq_trans;
    [apply (Qsum_column_sums _ (map (select_columns (loads_in n ri)) (map snd (x :: l))))|].
  - apply Forall_forall. intros r Hr.
    rewrite map_map in Hr. apply in_map_iff in Hr. destruct Hr as [sr [<- Hsr]].
    apply select_columns_length. unfold loads_in. rewrite length_map.
    now apply Hrows.
  - rewrite !map_map. unfold loads_in.
    erewrite map_ext; [apply Qeq_refl|].
    intros sr. simpl. now rewrite select_columns_combine.
Qed.

Lemma add_RPS_row_appends (n : Network) (row : PortfolioStandard) :
  appends_at n (rps_constraint n row) (add_RPS_row row).
Proof.
  unfold add_RPS_row. apply appends_get_net.
  destruct (is_nil (get_region_buses n _)); [apply appends_ret|].
  destruct (negb (is_nil _)); [|apply appends_ret].
  apply appends_lift_bind. intros d Hd.
  apply appends_bind; [|intros; apply appends_log].
  apply appends_add. exists d. simpl. repeat split; trivial.
  intros Hwf. now apply region_demand_summed_load.
Qed.

Lemma appends_weaken {A} n (P Q : Constraint -> Prop) (m : M A) :
  (forall c, P c -> Q c) -> appends_at n P m -> appends_at n Q m.
Proof.
  intros HPQ Hm w r w' Hn H.
  destruct (Hm w r w' Hn H) as [Hn' [new [Hnew HP]]].
  split; [assumption|]. exists new. split; [assumption|].
  eapply Forall_impl; eassumption.
Qed.

Lemma add_RPS_row_skips (n : Network) (row : PortfolioStandard) :
  get_region_buses n (Str.split_strip (ps_region row)) = []
  \/ filter (fun g => Str.isin (bus g)
                        (index (get_region_buses n (Str.split_strip (ps_region row)))))
            (generators n) = [] ->
  skips_at n (add_RPS_row row).
Proof.
  intros H w Hn. unfold add_RPS_row, bind, get_net. rewrite Hn.
  destruct H as [H|H].
  - rewrite H. reflexivity.
  - destruct (is_nil (get_region_buses n _)); [reflexivity|].
    rewrite H. reflexivity.
Qed.

Lemma add_RPS_row_not_compiled (n : Network) (row : PortfolioStandard) :
  rps_compiled n row = false -> skips_at n (add_RPS_row row).
Proof.
  intros H. apply add_RPS_row_skips. unfold rps_compiled in H.
  apply andb_false_iff in H. destruct H as [H|H]; apply negb_false_iff in H.
  - left. unfold rps_region in H. destruct (get_region_buses n _); [reflexivity|discriminate].
  - right. unfold rps_region_gens, rps_region in H.
    destruct (filter _ (generators n)); [reflexivity|discriminate].
Qed.

Lemma add_RPS_row_compiled (n : Network) (row : PortfolioStandard) (w : World) :
  net w = n -> rps_compiled n row = true ->
  add_RPS_row row w
  = match region_demand n (ps_planning_horizon row) (index (rps_region n row)) with
    | Ok d =>
        (Ok tt,
         {| net := net w;
            model := model w ++ [rps_registered n row d];
            records := records w ++ [rps_info row];
            solver_calls := solver_calls w;
            infeasibility_reports := infeasibility_reports w |})
    | Raise e => (Raise e, w)
    end.
Proof.
  intros Hn H. subst n. unfold rps_compiled in H. apply andb_true_iff in H.
  destruct H as [Hr Hg]. unfold rps_region_gens, rps_region in *.
  unfold add_RPS_row, bind, get_net.
  apply negb_true_iff in Hr. rewrite Hr, Hg. unfold lift.
  destruct (region_demand (net w) _ _); reflexivity.
Qed.

Lemma add_RPS_rows_exact (n : Network) (rows : list PortfolioStandard) :
  (forall row, In row (filter (rps_compiled n) rows) ->
               exists d, region_demand n (ps_planning_horizon row)
                                       (index (rps_region n row)) = Ok d) ->
  forall w, net w = n ->
    exists new,
      for_each rows add_RPS_row w
      = (Ok tt,
         {| net := n;
            model := model w ++ new;
            records := records w ++ map rps_info (filter (rps_compiled n) rows);
            solver_calls := solver_calls w;
            infeasibility_reports := infeasibility_reports w |})
      /\ Forall2 (fun row c =>
                    exists d, region_demand n (ps_planning_horizon row)
                                            (index (rps_region n row)) = Ok d
                              /\ c = rps_registered n row d)
                 (filter (rps_compiled n) rows) new.
Proof.
  induction rows as [|row rows IH]; intros Hd w Hn.
  - exists []. simpl. rewrite !app_nil_r. destruct w; simpl in *; subst.
    split; [reflexivity | constructor].
  - simpl for_each. unfold bind. simpl filter in *.
    destruct (rps_compiled n row) eqn:Ec.
    + rewrite (add_RPS_row_compiled n row w Hn Ec).
      destruct (Hd row (or_introl eq_refl)) as [d Hrow]. rewrite Hrow.
      destruct (IH (fun r Hr => Hd r (or_intror Hr))
                   {| net := net w;
                      model := model w ++ [rps_registered n row d];
                      records := records w ++ [rps_info row];
                      solver_calls := solver_calls w;
                      infeasibility_reports := infeasibility_reports w |} Hn)
        as [new [Hrun HF]].
      exists (rps_registered n row d :: new). rewrite Hrun. simpl.
      rewrite <- !app_assoc. simpl. split; [reflexivity|].
      constructor; [|exact HF]. exists d. now split.
    + rewrite (add_RPS_row_not_compiled n row Ec w Hn).
      exact (IH Hd w Hn).
Qed.

Lemma Forall2_with_left {A B} (P R : A -> B -> Prop) (Q : A -> Prop)
    (l : list A) (l' : list B) :
  Forall2 P l l' -> Forall Q l ->
  (forall a b, P a b -> Q a -> R a b) -> Forall2 R l l'.
Proof.
  intros HF HQ H. induction HF as [|a b l l' Hab _ IH]; [constructor|].
  inversion HQ; subst. constructor; [now apply H | now apply IH].
Qed.

(** C5: when every compiled row's horizon has a snapshot,
    [add_RPS_constraints] returns normally having registered exactly one
    constraint for each row it compiles, in table order: the rows with a
    positive [pct] and a configured planning horizon whose region has a
    bus and a generator. Each is a [>=] constraint whose right-hand side
    is the row's [pct] times the region demand, and on a load frame with
    one value per load the region demand is the load summed over the
    snapshots of the row's horizon and the loads on the buses the row's
    region resolves to. Whether or not the call returns, a registered
    constraint always belongs to such a row and has that right-hand
    side. A row with [pct <= 0] is never compiled, and a table whose rows
    all have [pct <= 0] registers no constraint. *)
Theorem add_RPS_constraints_rhs
    (planning_horizons : list Z) (portfolio_standards : list PortfolioStandard) (w : World) :
  let compiled :=
    filter (rps_compiled (net w)) (rps_surviving planning_horizons portfolio_standards) in
  let out := add_RPS_constraints planning_horizons portfolio_standards w in
  (p_set_well_formed (net w) ->
   (forall row, In row compiled ->
                exists d, region_demand (net w) (ps_planning_horizon row)
                                        (index (rps_region (net w) row)) = Ok d) ->
   exists new,
     fst out = Ok tt
     /\ model (snd out) = model w ++ new
     /\ Forall2 (fun row c =>
                   In row portfolio_standards
                   /\ (0 < ps_pct row)%Q
                   /\ csense c = GE
                   /\ exists r,
                        rhs c = Const (Some r)
                        /\ (r == ps_pct row
                                 * summed_load (net w) (ps_planning_horizon row)
                                               (index (rps_region (net w) row)))%Q)
                compiled new)
  /\ (exists new,
         model (snd out) = model w ++ new
         /\ Forall (fun c => exists row,
                        In row portfolio_standards
                        /\ (0 < ps_pct row)%Q
                        /\ In (ps_planning_horizon row) planning_horizons
                        /\ rps_constraint (net w) row c) new)
  /\ ((forall row, In row portfolio_standards -> (ps_pct row <= 0)%Q) -> out = (Ok tt, w)).
Proof.
  intros compiled out. subst out. split; [|split].
  - intros Hwf Hd.
    destruct (add_RPS_rows_exact (net w) (rps_surviving planning_horizons portfolio_standards)
                Hd w eq_refl) as [new [Hrun HF]].
    unfold add_RPS_constraints. fold (rps_surviving planning_horizons portfolio_standards).
    rewrite Hrun. exists new. split; [reflexivity|]. split; [reflexivity|].
    assert (Hin : Forall (fun row => In row portfolio_standards /\ (0 < ps_pct row)%Q)
                         compiled).
    { apply Forall_forall. intros row Hrow. subst compiled.
      apply filter_In in Hrow. destruct Hrow as [Hrow _].
      unfold rps_surviving in Hrow.
      apply filter_In in Hrow. destruct Hrow as [Hrow _].
      apply filter_In in Hrow. destruct Hrow as [Hrow Hp].
      split; [assumption|].
      apply negb_true_iff in Hp. apply Qnot_le_lt. intros Hle.
      apply Qle_bool_iff in Hle. congruence. }
    apply (Forall2_with_left _ _ _ _ _ HF Hin).
    intros row c [d [Hdem ->]] [Hrow Hpos].
    split; [assumption|]. split; [assumption|]. split; [reflexivity|].
    exists (ps_pct row * d)%Q. split; [reflexivity|].
    rewrite (region_demand_summed_load _ _ _ _ Hwf Hdem). reflexivity.
  - apply appends_run. unfold add_RPS_constraints.
    apply appends_for_each. intros row Hrow.
    apply filter_In in Hrow. destruct Hrow as [Hrow Hh].
    apply filter_In in Hrow. destruct Hrow as [Hrow Hp].
    apply (appends_weaken _ (rps_constraint (net w) row)); [|apply add_RPS_row_appends].
    intros c Hc. exists row. repeat split; trivial.
    + apply negb_true_iff in Hp. apply Qnot_le_lt. intros Hle.
      apply Qle_bool_iff in Hle. congruence.
    + now apply Zisin_In.
  - intros Hall. unfold add_RPS_constraints.
    rewrite (filter_none (fun r => negb (Qle_bool (ps_pct r) 0))); [reflexivity|].
    intros row Hrow. apply negb_false_iff. apply Qle_bool_iff. now apply Hall.
Qed.

(** On the sample network the load on bus [p1] is 300 and 400 in the two
    snapshots of 2030. Of a standard with [pct = 0] and a standard of one
    half for the same region, only the second is compiled, with the
    right-hand side 350. *)
Lemma add_RPS_constraints_rhs_witness :
  exists c r,
    model (snd (add_RPS_constraints [2030] [void_standard; half_solar_standard]
                  (fresh sample_network))) = [c]
    /\ rhs c = Const (Some r)
    /\ (r == 350)%Q.
Proof.
  destruct (proj1 (add_RPS_constraints_rhs [2030] [void_standard; half_solar_standard]
                     (fresh sample_network)))
    as [new [_ [Hm HF]]].
  - repeat constructor.
  - intros row [<-|[]]. eexists. reflexivity.
  - assert (Hc : filter (rps_compiled (net (fresh sample_network)))
                        (rps_surviving [2030] [void_standard; half_solar_standard])
                 = [half_solar_standard]) by reflexivity.
    rewrite Hc in HF.
    inversion HF as [|? c ? cs [_ [_ [_ [r [Hr Hq]]]]] Hnil]; subst.
    inversion Hnil; subst.
    exists c, r. split; [exact Hm|]. split; [exact Hr|].
    rewrite Hq. reflexivity.
Defined.

(** On the sample network the load on bus [p1] is 300 and 400 in the two
    snapshots of 2030: a standard of one half registers the right-hand
    side 350. *)
Example add_RPS_constraints_sample :
  exists c,
    model (snd (add_RPS_constraints [2030] [half_solar_standard] (fresh sample_network)))
    = [c]
    /\ lhs c = Sum (Sel "Generator-p" 2030 ["p1 solar"])
    /\ exists r, rhs c = Const (Some r) /\ (r == 350)%Q.
Proof.
  eexists. split; [reflexivity|]. split; [reflexivity|].
  eexists. split; [reflexivity|]. reflexivity.
Qed.

(* ===================================================================== *)
(** ** Reserve margins *)
(* ===================================================================== *)

Lemma add_SAFE_constraints_run (cfg : Config) (w : World) :
  add_SAFE_constraints cfg w = (Raise (NameError "conventional_carriers"), w).
Proof. reflexivity. Qed.

Lemma add_SAFER_row_run (row : ReserveMargin) (w : World) :
  add_SAFER_row row w
  = if is_nil (prm_region_buses (net w) row) then (Ok tt, w)
    else match region_peakdemand (net w) (prm_planning_horizon row)
                                 (index (prm_region_buses (net w) row)) with
         | Ok _ => (Raise (NameError "conventional_carriers"), w)
         | Raise e => (Raise e, w)
         end.
Proof.
  unfold add_SAFER_row, prm_region_buses, bind, get_net, lift.
  destruct (is_nil (get_region_buses (net w) _)); [reflexivity|].
  destruct (region_peakdemand (net w) _ _); reflexivity.
Qed.

(** C7: neither reserve-margin family arrives at the right-hand side the
    claim describes. The queries that are to select the generators of
    conventional carrier refer to [@conventional_carriers], a name that
    nothing in scope binds, and raise [NameError] before
    [add_constraints] is reached: the system-wide family on every call,
    the regional family on every row whose region has a bus and whose
    horizon has a snapshot. The store is left as it was, no constraint
    registered. *)
Theorem reserve_margin_unbound_carriers :
  (forall cfg w,
      add_SAFE_constraints cfg w = (Raise (NameError "conventional_carriers"), w))
  /\ (forall row w peak,
         prm_region_buses (net w) row <> [] ->
         region_peakdemand (net w) (prm_planning_horizon row)
                           (index (prm_region_buses (net w) row)) = Ok peak ->
         add_SAFER_row row w = (Raise (NameError "conventional_carriers"), w)).
Proof.
  split.
  - intros cfg w. apply add_SAFE_constraints_run.
  - intros row w peak Hreg Hpeak. rewrite add_SAFER_row_run, Hpeak.
    destruct (prm_region_buses (net w) row); [congruence | reflexivity].
Qed.

(** On the sample network, with an existing coal plant of 500, a peak
    demand of 400 and a margin of one tenth, the system-wide family and
    the regional row for [CA] both end in [NameError]. *)
Lemma reserve_margin_unbound_carriers_witness :
  add_SAFE_constraints sample_config (fresh sample_network)
  = (Raise (NameError "conventional_carriers"), fresh sample_network)
  /\ add_SAFER_row california_margin (fresh sample_network)
     = (Raise (NameError "conventional_carriers"), fresh sample_network).
Proof.
  destruct reserve_margin_unbound_carriers as [Hsafe Hsafer]. split.
  - apply Hsafe.
  - apply (Hsafer california_margin (fresh sample_network) (Some 400%Q)).
    + discriminate.
    + reflexivity.
Defined.

(* ===================================================================== *)
(** ** Empty selections *)
(* ===================================================================== *)






(* ===================================================================== *)
(** ** Storage charger and discharger symmetry *)
(* ===================================================================== *)

Lemma all_some_map_Some {A B} (f : A -> B) (l : list A) :
  all_some (map (fun x => Some (f x)) l) = Some (map f l).
Proof. induction l as [|a l IH]; simpl; [reflexivity | now rewrite IH]. Qed.

Lemma Forall_zip_with {A B C} (P : C -> Prop) (f : A -> B -> C) (a : list A) (b : list B) :
  length a = length b ->
  (Forall P (zip_with f a b) <-> Forall2 (fun x y => P (f x y)) a b).
Proof.
  revert b. induction a as [|x a IH]; intros [|y b] H; simpl in *; try discriminate.
  - split; constructor.
  - injection H as H. split.
    + intros HF. inversion HF; subst. constructor; [assumption | now apply IH].
    + intros HF. inversion HF; subst. constructor; [assumption | now apply IH].
Qed.

Lemma battery_rows (sns : list Snapshot) (cs ds : list Link) :
  length cs = length ds ->
  denote sns
    (Sub (Loc "Link-p_nom" (map link_name cs))
         (MulValues (Loc "Link-p_nom" (map link_name ds))
                    (map (fun l => Some (efficiency l)) ds)))
  = Some (zip_with
            (fun c d => [(1%Q, link_capacity c);
                         ((-1 * (efficiency d * 1))%Q, link_capacity d)])
            cs ds).
Proof.
  intros Hlen. simpl. rewrite all_some_map_Some, !length_map, Nat.eqb_refl.
  rewrite zip_with_length by now rewrite !length_map.
  rewrite !length_map, Hlen, Nat.eqb_refl. f_equal.
  clear sns. revert ds Hlen.
  induction cs as [|c cs IH]; intros [|d ds] Hlen; simpl in *; try discriminate;
    [reflexivity|].
  injection Hlen as Hlen. now rewrite IH.
Qed.

Lemma battery_row_forces (sigma : Var -> Q) (c d : Link) :
  holds EQ (eval sigma [(1%Q, link_capacity c);
                        ((-1 * (efficiency d * 1))%Q, link_capacity d)]) 0
  <-> (sigma (link_capacity c) == efficiency d * sigma (link_capacity d))%Q.
Proof.
  unfold holds, eval. simpl.
  set (x := sigma (link_capacity c)). set (y := sigma (link_capacity d)).
  set (k := efficiency d).
  split; intros H.
  - assert (E : (x == k * y + (1 * x + (-1 * (k * 1) * y + 0)))%Q) by ring.
    rewrite E, H. ring.
  - rewrite H. ring.
Qed.

Lemma add_battery_constraints_run (w : World) :
  any_link_extendable (net w) = true ->
  add_battery_constraints w
  = (Ok tt,
     {| net := net w;
        model := model w ++ [charger_ratio (net w)];
        records := records w;
        solver_calls := solver_calls w;
        infeasibility_reports := infeasibility_reports w |}).
Proof.
  intros Hext. unfold add_battery_constraints, bind, get_net.
  rewrite Hext. reflexivity.
Qed.

Lemma charger_ratio_satisfies (n : Network) (sigma : Var -> Q) :
  length (chargers_ext n) = length (dischargers_ext n) ->
  (satisfies (snapshots n) sigma (charger_ratio n) <->
   Forall2 (fun ch dis =>
              (sigma (link_capacity ch) == efficiency dis * sigma (link_capacity dis))%Q)
           (chargers_ext n) (dischargers_ext n)).
Proof.
  intros Hlen. unfold satisfies, charger_ratio. cbn [lhs rhs csense].
  rewrite (battery_rows (snapshots n) _ _ Hlen). split.
  - intros [rows [r [Hd [Hr HF]]]].
    injection Hd as <-. injection Hr as <-.
    apply Forall_zip_with in HF; [|exact Hlen].
    eapply Forall2_impl; [|exact HF].
    intros ch dis H. now apply battery_row_forces.
  - intros HF. eexists. exists 0%Q. split; [reflexivity|]. split; [reflexivity|].
    apply Forall_zip_with; [exact Hlen|].
    eapply Forall2_impl; [|exact HF].
    intros ch dis H. now apply battery_row_forces.
Qed.

(** C6: when some link is extendable and the extendable battery chargers
    and dischargers come in equal number, so that they pair off in table
    order, the family registers the one equality constraint
    [Link-charger_ratio] with right-hand side zero, and an assignment
    satisfies it exactly when every charger's capacity equals the
    efficiency of its discharger times that discharger's capacity; with
    efficiency nine tenths and the discharger at 100 the charger is at
    90. *)
Theorem add_battery_constraints_symmetry (w : World) :
  any_link_extendable (net w) = true ->
  length (chargers_ext (net w)) = length (dischargers_ext (net w)) ->
  exists c,
    fst (add_battery_constraints w) = Ok tt
    /\ model (snd (add_battery_constraints w)) = model w ++ [c]
    /\ cname c = "Link-charger_ratio"%string
    /\ csense c = EQ
    /\ rhs c = Const (Some 0%Q)
    /\ forall sigma,
         (satisfies (snapshots (net w)) sigma c <->
          Forall2 (fun ch dis =>
                     (sigma (link_capacity ch)
                      == efficiency dis * sigma (link_capacity dis))%Q)
                  (chargers_ext (net w)) (dischargers_ext (net w)))
         /\ (satisfies (snapshots (net w)) sigma c ->
             forall ch dis,
               In (ch, dis) (combine (chargers_ext (net w)) (dischargers_ext (net w))) ->
               (efficiency dis == 9 # 10)%Q ->
               (sigma (link_capacity dis) == 100)%Q ->
               (sigma (link_capacity ch) == 90)%Q).
Proof.
  intros Hext Hlen. exists (charger_ratio (net w)).
  rewrite (add_battery_constraints_run w Hext).
  split; [reflexivity|]. split; [reflexivity|]. split; [reflexivity|].
  split; [reflexivity|]. split; [reflexivity|].
  intros sigma. split; [now apply charger_ratio_satisfies|].
  intros Hsat ch dis Hin Heff Hdis.
  apply (charger_ratio_satisfies _ _ Hlen) in Hsat.
  assert (Hpair : (sigma (link_capacity ch)
                   == efficiency dis * sigma (link_capacity dis))%Q).
  { clear - Hsat Hin. induction Hsat as [|x y xs ys Hxy _ IH]; simpl in Hin; [tauto|].
    destruct Hin as [Hin|Hin]; [injection Hin as <- <-; exact Hxy | now apply IH]. }
  rewrite Hpair, Heff, Hdis. reflexivity.
Qed.

(** One charger and one discharger of efficiency nine tenths: the
    registered equality puts the charger at 90 when the discharger is at
    100. *)
Lemma add_battery_constraints_symmetry_witness :
  exists c,
    model (snd (add_battery_constraints (fresh battery_network))) = [c]
    /\ forall sigma,
         satisfies [] sigma c ->
         (sigma (link_capacity battery_discharger) == 100)%Q ->
         (sigma (link_capacity battery_charger) == 90)%Q.
Proof.
  destruct (add_battery_constraints_symmetry (fresh battery_network) eq_refl eq_refl)
    as [c [_ [Hm [_ [_ [_ H]]]]]].
  exists c. split; [exact Hm|].
  intros sigma Hs Hd.
  apply (proj2 (H sigma) Hs battery_charger battery_discharger).
  - simpl. left. reflexivity.
  - reflexivity.
  - exact Hd.
Defined.

(* ===================================================================== *)
(** ** Heat-pump coupling *)
(* ===================================================================== *)

Lemma add_cooling_heat_pump_constraints_phases (w : World) :
  add_cooling_heat_pump_constraints w
  = (hp_phase "ashp" ;; hp_phase "gshp" ;; ret tt) w.
Proof. reflexivity. Qed.

Lemma is_nil_map {A B} (f : A -> B) (l : list A) : is_nil (map f l) = is_nil l.
Proof. now destruct l. Qed.

Lemma is_nil_false {A} (l : list A) : l <> [] -> is_nil l = false.
Proof. destruct l; [congruence | reflexivity]. Qed.

Lemma add_hp_capacity_constraint_asserts (hp_type : string) (w : World) :
  hp_type = "ashp"%string \/ hp_type = "gshp"%string ->
  links_ending (net w) hp_type <> [] ->
  length (links_ending (net w) hp_type)
  <> length (links_ending (net w) (hp_type ++ "-cooling")%string) ->
  HeatPump.add_hp_capacity_constraint hp_type w = (Raise AssertionError, w).
Proof.
  intros Hty Hheat Hlen.
  unfold HeatPump.add_hp_capacity_constraint.
  assert (Hok : negb (Str.isin hp_type ["ashp"%string; "gshp"%string]) = false)
    by (destruct Hty as [-> | ->]; reflexivity).
  rewrite Hok. unfold bind, get_net.
  rewrite is_nil_map, (is_nil_false _ Hheat), !length_map.
  apply Nat.eqb_neq in Hlen. rewrite Hlen. reflexivity.
Qed.

Lemma ashp_phase_appends (n : Network) : appends_at n ashp_named (hp_phase "ashp").
Proof.
  unfold hp_phase. apply appends_bind.
  - unfold HeatPump.add_hp_capacity_constraint. simpl negb. cbv iota.
    apply appends_get_net.
    destruct (is_nil _); [apply appends_ret|].
    destruct (negb _); [apply appends_raise|].
    apply appends_add. left. reflexivity.
  - intros _. unfold HeatPump.add_hp_generation_constraint.
    apply appends_get_net.
    destruct (is_nil _); [apply appends_ret|].
    apply appends_lift_bind. intros hc _.
    apply appends_lift_bind. intros cc _.
    apply appends_add. right. reflexivity.
Qed.

(** C10: when some link name ends with the heat-pump type ([ashp] or
    [gshp]) and the links so named differ in number from the links whose
    name ends with the type followed by [-cooling], the capacity
    constraint of that type is not built: the builder raises
    [AssertionError] and leaves the model as it was, and the family as a
    whole ends in an exception without any constraint for that type; a
    capacity constraint is registered only between equally many heating
    and cooling links. *)
Theorem heat_pump_count_mismatch (hp_type : string) (w : World) :
  hp_type = "ashp"%string \/ hp_type = "gshp"%string ->
  links_ending (net w) hp_type <> [] ->
  length (links_ending (net w) hp_type)
  <> length (links_ending (net w) (hp_type ++ "-cooling")%string) ->
  HeatPump.add_hp_capacity_constraint hp_type w = (Raise AssertionError, w)
  /\ (hp_type = "ashp"%string ->
      add_cooling_heat_pump_constraints w = (Raise AssertionError, w))
  /\ (hp_type = "gshp"%string ->
      exists e w' new,
        add_cooling_heat_pump_constraints w = (Raise e, w')
        /\ net w' = net w
        /\ model w' = model w ++ new
        /\ Forall ashp_named new
        /\ (fst (hp_phase "ashp" w) = Ok tt -> e = AssertionError))
  /\ (forall hp w0,
         model (snd (HeatPump.add_hp_capacity_constraint hp w0)) <> model w0 ->
         length (links_ending (net w0) hp)
         = length (links_ending (net w0) (hp ++ "-cooling")%string)).
Proof.
  intros Hty Hheat Hlen.
  pose proof (add_hp_capacity_constraint_asserts hp_type w Hty Hheat Hlen) as Hcap.
  split; [exact Hcap|]. split; [|split].
  - intros ->. rewrite add_cooling_heat_pump_constraints_phases.
    unfold hp_phase at 1. unfold bind at 1 2. now rewrite Hcap.
  - intros ->. rewrite add_cooling_heat_pump_constraints_phases.
    destruct (hp_phase "ashp" w) as [r w1] eqn:E.
    destruct (ashp_phase_appends (net w) w r w1 eq_refl E) as [Hn [new [Hm HP]]].
    destruct r as [[]|e].
    + exists AssertionError, w1, new. unfold bind at 1. rewrite E.
      unfold hp_phase. unfold bind at 1 2.
      rewrite add_hp_capacity_constraint_asserts; rewrite ?Hn; auto.
    + exists e, w1, new. unfold bind at 1. rewrite E.
      repeat split; auto. simpl. discriminate.
  - intros hp w0 Hchange.
    unfold HeatPump.add_hp_capacity_constraint in Hchange.
    destruct (negb (Str.isin hp _)); [now elim Hchange|].
    unfold bind, get_net in Hchange.
    destruct (is_nil _); [now elim Hchange|].
    rewrite !length_map in Hchange.
    destruct (Nat.eqb _ _) eqn:El; [now apply Nat.eqb_eq in El|].
    now elim Hchange.
Qed.

(** Two air-source heat pumps and one cooling variant: the family raises
    [AssertionError] and registers nothing. *)
Lemma heat_pump_count_mismatch_witness :
  add_cooling_heat_pump_constraints (fresh lopsided_network)
  = (Raise AssertionError, fresh lopsided_network).
Proof.
  refine (proj1 (proj2 (heat_pump_count_mismatch "ashp" (fresh lopsided_network)
                          (or_introl eq_refl) _ _)) eq_refl).
  - vm_compute. discriminate.
  - vm_compute. discriminate.
Defined.

(** The capacity-ratio family asserts in the same way that air-source
    and ground-source heat pumps come in equal number. *)
Lemma add_gshp_capacity_constraint_asserts (fraction : list (string * Q)) (w : World) :
  links_ending (net w) "gshp" <> [] ->
  length (links_ending (net w) "ashp") <> length (links_ending (net w) "gshp") ->
  add_gshp_capacity_constraint fraction w = (Raise AssertionError, w).
Proof.
  intros Hg Hlen. unfold add_gshp_capacity_constraint, bind, get_net.
  rewrite (is_nil_false _ Hg). apply Nat.eqb_neq in Hlen. rewrite Hlen.
  reflexivity.
Qed.

(* ===================================================================== *)
(** ** Sector emission limits and unrealised horizons *)
(* ===================================================================== *)

Lemma In_unique {A} (eqb : A -> A -> bool) (l : list A) (x : A) :
  In x (unique eqb l) -> In x l.
Proof.
  induction l as [|a l IH]; simpl; [tauto|].
  intros [H|H]; [now left|]. right. apply IH.
  apply filter_In in H. tauto.
Qed.

Lemma no_realised_year (ips : list Z) (rows : list Co2Policy) :
  (forall r, In r rows -> ~ In (co2_year r) ips) ->
  filter (fun x => Zisin x ips) (unique Z.eqb (map co2_year rows)) = [].
Proof.
  intros H. apply filter_none. intros y Hy.
  apply In_unique in Hy. apply in_map_iff in Hy. destruct Hy as [r [<- Hr]].
  apply not_true_is_false. intros Hc. apply Zisin_In in Hc. exact (H r Hr Hc).
Qed.

(** C8 fails on the code for the sector emission limits: when the policy
    table is not empty and none of its rows has a year among the
    network's investment periods, [add_sector_co2_constraints] does not
    skip the rows but raises [UnboundLocalError], the warning it is about
    to log reading the loop variable [year] that no iteration has bound
    yet. *)
Theorem add_sector_co2_constraints_unbound_year (cfg : Config) (df : list Co2Policy)
    (w : World) :
  co2_policy cfg = Some df ->
  df <> [] ->
  (forall r, In r df -> ~ In (co2_year r) (investment_periods (net w))) ->
  add_sector_co2_constraints cfg w = (Raise (UnboundLocalError "year"), w).
Proof.
  intros Hcfg Hne Hyears. unfold add_sector_co2_constraints. rewrite Hcfg.
  destruct df as [|r0 rest]; [congruence|].
  cbn [is_nil]. unfold bind at 1. unfold get_net.
  cbn [map unique for_fold]. unfold bind at 2.
  unfold SectorCo2.apply_sector at 1.
  cbn [filter]. rewrite String.eqb_refl.
  cbn [map unique for_fold]. unfold bind at 2.
  unfold SectorCo2.apply_state at 1.
  rewrite no_realised_year; [reflexivity|].
  intros r Hr. apply filter_In in Hr. destruct Hr as [Hr _].
  destruct Hr as [<-|Hr]; [apply Hyears; now left|].
  apply filter_In in Hr. apply Hyears. right. tauto.
Qed.

(** The failing input: one policy row for 2040 on a network whose only
    investment period is 2030. *)
Lemma add_sector_co2_constraints_unbound_year_witness :
  add_sector_co2_constraints (policy_config [texas_2040_limit]) (fresh sample_network)
  = (Raise (UnboundLocalError "year"), fresh sample_network).
Proof.
  apply (add_sector_co2_constraints_unbound_year
           (policy_config [texas_2040_limit]) [texas_2040_limit] (fresh sample_network)).
  - reflexivity.
  - discriminate.
  - intros r [<-|[]]. simpl. intros [H|[]]. discriminate.
Defined.

(** Beside a realised year of the same state the unrealised year is
    dropped without a trace: only the limit for 2030 is registered. *)
Example add_sector_co2_constraints_drops_year :
  let out := add_sector_co2_constraints
               (policy_config [texas_2030_limit; texas_2040_limit])
               (fresh sample_network) in
  fst out = Ok tt /\ map cname (model (snd out)) = ["co2_limit-2030-TX"%string].
Proof. split; reflexivity. Qed.

(** Once an earlier state has bound [year], a later state without a
    realised year is skipped with a warning that names the stale
    year. *)
Example add_sector_co2_constraints_skips_later_state :
  let out := add_sector_co2_constraints
               (policy_config [texas_2030_limit; california_2040_limit])
               (fresh sample_network) in
  fst out = Ok tt
  /\ map cname (model (snd out)) = ["co2_limit-2030-TX"%string]
  /\ In {| levelname := WARNING;
           template := "No co2 policies applied for {} in {}";
           args := [AStr "all"; AInt 2030] |} (records (snd out)).
Proof. split; [reflexivity|]. split; [reflexivity|]. simpl. auto. Qed.

(** The families that filter their table by the planning horizons skip
    every row of another horizon, registering nothing and raising
    nothing. *)
Lemma unrealised_horizon_skipped (planning_horizons : list Z) :
  (forall ps w,
      (forall row, In row ps -> ~ In (ps_planning_horizon row) planning_horizons) ->
      add_RPS_constraints planning_horizons ps w = (Ok tt, w))
  /\ (forall table w,
         (forall row, In row table -> ~ In (prm_planning_horizon row) planning_horizons) ->
         add_SAFER_constraints planning_horizons table w = (Ok tt, w)).
Proof.
  split.
  - intros ps w H. unfold add_RPS_constraints.
    rewrite (filter_none (fun r => Zisin (ps_planning_horizon r) planning_horizons));
      [reflexivity|].
    intros row Hrow. apply filter_In in Hrow. destruct Hrow as [Hrow _].
    apply not_true_is_false. intros Hc. apply Zisin_In in Hc. exact (H row Hrow Hc).
  - intros table w H. unfold add_SAFER_constraints.
    rewrite filter_none; [reflexivity|].
    intros row Hrow.
    apply not_true_is_false. intros Hc. apply Zisin_In in Hc. exact (H row Hrow Hc).
Qed.

(* ===================================================================== *)
(** ** Solve strategy dispatcher *)
(* ===================================================================== *)

(** C1, as amended: when the solver options resolve, every call of
    [solve_network] makes exactly one call to the backend: the rolling
    horizon when the options request it, whatever else is set; otherwise
    the direct solve when the options request to skip iterations or no
    line is extendable; otherwise the iterative transmission
    expansion. *)
Theorem solve_network_strategy
    (optimize optimize_transmission_expansion_iteratively : solver)
    (optimize_with_rolling_horizon : Kwargs -> Solved -> result unit * Solved)
    (cfg : Config) (solving : Solving) (opts : list string)
    (kwargs kw_opts : list (string * string)) (w : World) :
  lookup_solver_options solving = Ok kw_opts ->
  solver_calls
    (snd (solve_network optimize optimize_transmission_expansion_iteratively
            optimize_with_rolling_horizon cfg solving opts kwargs w))
  = solver_calls w ++ [chosen_strategy (net w) cfg solving kwargs kw_opts]
  /\ strategy_kind (chosen_strategy (net w) cfg solving kwargs kw_opts)
     = strategy_kind_with_skip (net w) solving.
Proof.
  intros Hlookup. split;
    [|unfold chosen_strategy, strategy_kind_with_skip;
      destruct (get (rolling_horizon (options solving)) false);
      destruct (get (skip_iterations (options solving)) false);
      destruct (existsb s_nom_extendable (lines (net w))); reflexivity].
  unfold solve_network, chosen_strategy.
  unfold bind at 1. unfold get_net at 1.
  unfold bind at 1. unfold lift at 1. rewrite Hlookup.
  destruct (get (rolling_horizon (options solving)) false);
    destruct (get (skip_iterations (options solving)) false);
    destruct (existsb s_nom_extendable (lines (net w)));
    cbn [negb orb andb];
    unfold bind, log, ret, attach, call, raise, print_infeasibilities, get_net;
    cbn [net model records solver_calls infeasibility_reports];
    repeat match goal with
           | |- context [optimize ?k ?s] =>
               destruct (optimize k s) as [[[? ?]|?] [? ?]]
           | |- context [optimize_transmission_expansion_iteratively ?k ?s] =>
               destruct (optimize_transmission_expansion_iteratively k s)
                 as [[[? ?]|?] [? ?]]
           | |- context [optimize_with_rolling_horizon ?k ?s] =>
               destruct (optimize_with_rolling_horizon k s) as [[[]|?] [? ?]]
           end;
    cbn [net model records solver_calls infeasibility_reports andb negb];
    repeat match goal with
           | |- context [if ?b then _ else _] => destruct b
           end;
    reflexivity.
Qed.

(** C2: whenever the solve returns a status and termination condition, a
    status other than [ok] is logged as a warning, and a termination
    condition that contains [infeasible] makes [solve_network] ask the
    backend for its infeasibility report once and raise [RuntimeError]
    instead of returning; with any other condition it returns the solved
    network. *)
Theorem solve_network_reports
    (optimize optimize_transmission_expansion_iteratively : solver)
    (optimize_with_rolling_horizon : Kwargs -> Solved -> result unit * Solved)
    (cfg : Config) (solving : Solving) (opts : list string)
    (kwargs kw_opts : list (string * string)) (w : World)
    (status condition : string) (after : Solved) :
  let out := solve_network optimize optimize_transmission_expansion_iteratively
               optimize_with_rolling_horizon cfg solving opts kwargs w in
  lookup_solver_options solving = Ok kw_opts ->
  returns optimize optimize_transmission_expansion_iteratively
          (chosen_strategy (net w) cfg solving kwargs kw_opts)
          (set_context (net w) cfg opts, model w) status condition after ->
  (status <> "ok"%string -> In (status_warning status condition) (records (snd out)))
  /\ (Str.contains "infeasible" condition = true ->
      fst out = Raise (RuntimeError "Solving status 'infeasible'")
      /\ infeasibility_reports (snd out) = S (infeasibility_reports w))
  /\ (Str.contains "infeasible" condition = false ->
      fst out = Ok (fst after)
      /\ infeasibility_reports (snd out) = infeasibility_reports w).
Proof.
  intros out Hlookup Hret. subst out. unfold solve_network.
  unfold chosen_strategy in Hret.
  destruct after as [n' m'].
  unfold bind, lift, log, ret, attach, call, raise, print_infeasibilities, get_net.
  rewrite Hlookup.
  destruct (get (rolling_horizon (options solving)) false); [contradiction|].
  destruct (get (skip_iterations (options solving)) false);
    destruct (existsb s_nom_extendable (lines (net w)));
    cbn [negb orb andb returns] in Hret |- *;
    cbn [net model records solver_calls infeasibility_reports];
    rewrite Hret;
    cbn [net model records solver_calls infeasibility_reports andb negb];
    destruct (String.eqb status "ok") eqn:Es;
    destruct (Str.contains "infeasible" condition) eqn:Ec;
    cbn [net model records solver_calls infeasibility_reports andb negb fst snd];
    (split; [|split]); intros H; try discriminate; try (split; reflexivity);
    try (apply String.eqb_eq in Es; contradiction);
    try (apply in_or_app; right; left; reflexivity).
Qed.

(** With default options and an extendable line the iterative expansion
    runs. *)
Lemma solve_network_strategy_witness :
  solver_calls
    (snd (solve_network (answering "ok" "optimal") (answering "ok" "optimal")
            rolling_quietly sample_config (solving_with no_options) [] []
            (fresh expandable_network)))
  = [chosen_strategy expandable_network sample_config (solving_with no_options) [] []]
  /\ strategy_kind
       (chosen_strategy expandable_network sample_config (solving_with no_options) [] [])
     = 1%nat.
Proof.
  exact (solve_network_strategy (answering "ok" "optimal") (answering "ok" "optimal")
           rolling_quietly sample_config (solving_with no_options) [] [] []
           (fresh expandable_network) eq_refl).
Defined.

(** C1, as stated, fails: with an extendable line, no rolling horizon,
    and [skip_iterations] set in the options, the specification's rule
    picks the iterative expansion, and [solve_network] calls the direct
    solve. *)
Lemma solve_network_skip_iterations_direct :
  strategy_kind_by_spec expandable_network (solving_with skip_options) = 1%nat
  /\ map strategy_kind
       (solver_calls
          (snd (solve_network (answering "ok" "optimal") (answering "ok" "optimal")
                  rolling_quietly sample_config (solving_with skip_options) [] []
                  (fresh expandable_network))))
     = [0%nat].
Proof. split; reflexivity. Qed.

(** An infeasible direct solve: the warning is logged, the report is
    requested, and [RuntimeError] is raised. *)
Lemma solve_network_reports_witness :
  In (status_warning "warning" "infeasible")
     (records
        (snd (solve_network (answering "warning" "infeasible") (answering "ok" "optimal")
                rolling_quietly sample_config (solving_with no_options) [] []
                (fresh sample_network))))
  /\ fst (solve_network (answering "warning" "infeasible") (answering "ok" "optimal")
            rolling_quietly sample_config (solving_with no_options) [] []
            (fresh sample_network))
     = Raise (RuntimeError "Solving status 'infeasible'").
Proof.
  pose proof (solve_network_reports
                (answering "warning" "infeasible") (answering "ok" "optimal")
                rolling_quietly sample_config (solving_with no_options) [] [] []
                (fresh sample_network) "warning" "infeasible"
                (set_context sample_network sample_config [], [])
                eq_refl eq_refl) as [Hwarn [Hinf _]].
  split.
  - apply Hwarn. discriminate.
  - apply Hinf. reflexivity.
Defined.

(* ===================================================================== *)
(** ** Splitting and joining token lists *)
(* ===================================================================== *)

Lemma split_no_sep (c : ascii) (s : string) :
  has_char c s = false -> Str.split c s = [s].
Proof.
  induction s as [|d r IH]; simpl; [reflexivity|].
  intros H. apply orb_false_iff in H. destruct H as [Hd Hr].
  rewrite Hd, (IH Hr). reflexivity.
Qed.

Lemma split_app_sep (c : ascii) (a b : string) :
  has_char c a = false ->
  Str.split c (a ++ String c b)%string = a :: Str.split c b.
Proof.
  induction a as [|d r IH]; simpl; intros H.
  - now rewrite Ascii.eqb_refl.
  - apply orb_false_iff in H. destruct H as [Hd Hr].
    rewrite Hd, (IH Hr). reflexivity.
Qed.

Lemma split_pieces (c : ascii) (s : string) :
  Str.split c s <> [] /\ Forall (fun p => has_char c p = false) (Str.split c s).
Proof.
  induction s as [|d r [IHn IHf]]; simpl.
  - split; [discriminate | now repeat constructor].
  - destruct (Ascii.eqb d c) eqn:E.
    + split; [discriminate | now constructor].
    + destruct (Str.split c r) as [|h t]; [congruence|].
      split; [discriminate|].
      inversion IHf; subst. constructor; [|assumption].
      simpl. now rewrite E.
Qed.

Lemma split_join_comma (x : string) (xs : list string) :
  Forall (fun y => has_char "," y = false) (x :: xs) ->
  Str.split "," (join ", " (x :: xs)) = x :: map (String " ") xs.
Proof.
  revert x. induction xs as [|y r IH]; intros x H.
  - simpl. apply split_no_sep. now inversion H.
  - inversion H as [|? ? Hx Hrest]; subst.
    change (join ", " (x :: y :: r))
      with (x ++ String "," (String " " (join ", " (y :: r))))%string.
    rewrite (split_app_sep _ _ _ Hx).
    change (Str.split "," (String " " (join ", " (y :: r))))
      with (match Str.split "," (join ", " (y :: r)) with
            | h :: t => String " " h :: t
            | [] => [String " " EmptyString]
            end).
    rewrite (IH y Hrest). reflexivity.
Qed.

Lemma strip_after_space (x : string) : Str.strip (String " " x) = Str.strip x.
Proof. reflexivity. Qed.

Lemma split_strip_join (xs : list string) :
  xs <> [] -> Forall clean_token xs -> Str.split_strip (join ", " xs) = xs.
Proof.
  destruct xs as [|x r]; [congruence|]. intros _ H.
  unfold Str.split_strip. rewrite split_join_comma.
  - inversion H as [|? ? [_ Hx] Hr]; subst. simpl. rewrite Hx. f_equal.
    rewrite map_map. clear -Hr.
    induction Hr as [|y r [_ Hy] _ IH]; simpl; [reflexivity|].
    rewrite strip_after_space, Hy, IH. reflexivity.
  - eapply Forall_impl; [|exact H]. intros y [Hy _]. exact Hy.
Qed.

Lemma lookup_memberships (key column : Bus -> string) (bs : list Bus) (k v : string) :
  lookup (memberships key column bs) k = Some v ->
  v = join ", " (map column (filter (fun b => String.eqb (key b) k) bs))
  /\ filter (fun b => String.eqb (key b) k) bs <> [].
Proof.
  unfold lookup, memberships. intros H.
  destruct (find _ _) as [[k' v']|] eqn:E; [|discriminate].
  injection H as <-.
  pose proof (find_some _ _ E) as [Hin Hk]. simpl in Hk.
  apply String.eqb_eq in Hk. subst k'.
  apply in_map_iff in Hin. destruct Hin as [k0 [Hkv Hk0]].
  injection Hkv as -> <-. split; [reflexivity|].
  apply In_unique in Hk0. apply in_map_iff in Hk0. destruct Hk0 as [b [Hb Hinb]].
  intros Hnil.
  assert (Hf : In b (filter (fun b => String.eqb (key b) k) bs)).
  { apply filter_In. split; [assumption|]. rewrite Hb. apply String.eqb_refl. }
  rewrite Hnil in Hf. exact Hf.
Qed.

(** X1: the region tokens read back from a membership string are the
    zone names that went into it. For every row that the preparation of
    the ReEDS portfolio standards produces, splitting and stripping the
    region gives exactly the zones of the buses of the row's state, in
    table order, and splitting and stripping the carrier gives
    [rps_carriers], provided no zone name holds a comma or starts or ends
    with white space. A state without bus produces no row. *)
Theorem prepare_rps_reeds_round_trip (reeds_zone : Bus -> string) (n : Network)
    (rps_reeds : list RpsReeds) (row : PortfolioStandard) :
  Forall (fun b => clean_token (reeds_zone b)) (buses n) ->
  In row (prepare_rps_reeds reeds_zone n rps_reeds) ->
  exists r,
    In r rps_reeds
    /\ ps_name row = rr_st r
    /\ ps_planning_horizon row = rr_t r
    /\ ps_pct row = rr_rps_all r
    /\ (exists b, In b (buses n) /\ reeds_state b = rr_st r)
    /\ Str.split_strip (ps_region row)
       = map reeds_zone (filter (fun b => String.eqb (reeds_state b) (rr_st r)) (buses n))
    /\ Str.split_strip (ps_carrier row) = rps_carriers.
Proof.
  intros Hclean Hin. unfold prepare_rps_reeds in Hin.
  apply in_flat_map in Hin. destruct Hin as [r [Hr Hrow]].
  destruct (lookup _ (rr_st r)) as [region|] eqn:E; [|contradiction].
  destruct Hrow as [<-|[]]. exists r. simpl.
  destruct (lookup_memberships _ _ _ _ _ E) as [-> Hne].
  repeat split; trivial.
  - destruct (filter _ (buses n)) as [|b l] eqn:Ef; [congruence|].
    exists b.
    assert (Hb : In b (filter (fun b => String.eqb (reeds_state b) (rr_st r)) (buses n)))
      by (rewrite Ef; now left).
    apply filter_In in Hb. destruct Hb as [Hb Hs].
    split; [assumption | now apply String.eqb_eq].
  - apply split_strip_join.
    + intros Hnil. apply map_eq_nil in Hnil. contradiction.
    + apply Forall_forall. intros z Hz. apply in_map_iff in Hz.
      destruct Hz as [b [<- Hb]]. apply filter_In in Hb.
      rewrite Forall_forall in Hclean. apply Hclean. tauto.
Qed.

(** On the network with the single bus [p1] of state [CA], whose zone is
    taken to be its name, the prepared row for [CA] reads back the region
    list [[p1]]. *)
Lemma prepare_rps_reeds_round_trip_witness :
  Str.split_strip
    (ps_region (hd void_standard (prepare_rps_reeds bus_name one_bus_network [ca_rps])))
  = ["p1"%string].
Proof.
  assert (Hclean : Forall (fun b => clean_token (bus_name b)) (buses one_bus_network)).
  { repeat constructor. }
  destruct (prepare_rps_reeds_round_trip bus_name one_bus_network [ca_rps]
              (hd void_standard (prepare_rps_reeds bus_name one_bus_network [ca_rps]))
              Hclean (or_introl eq_refl))
    as [r [Hr [_ [_ [_ [_ [Hreg _]]]]]]].
  destruct Hr as [<-|[]]. exact Hreg.
Defined.

(* ===================================================================== *)
(** ** Scenario tokens *)
(* ===================================================================== *)

Lemma split_app (c : ascii) (a b : string) :
  Str.split c (a ++ String c b)%string = Str.split c a ++ Str.split c b.
Proof.
  induction a as [|d r IH]; simpl.
  - now rewrite Ascii.eqb_refl.
  - destruct (Ascii.eqb d c); rewrite IH; [reflexivity|].
    destruct (split_pieces c r) as [Hne _].
    destruct (Str.split c r) as [|h t]; [congruence | reflexivity].
Qed.

Lemma Forall_filter {A} (P : A -> Prop) (f : A -> bool) (l : list A) :
  Forall P l -> Forall P (filter f l).
Proof.
  rewrite !Forall_forall. intros H x Hx. apply filter_In in Hx. apply H. tauto.
Qed.

Lemma Forall_filter_true {A} (f : A -> bool) (l : list A) :
  Forall (fun x => f x = true) (filter f l).
Proof. apply Forall_forall. intros x Hx. apply filter_In in Hx. tauto. Qed.

Lemma main_opts_pieces (o : string) (so : option string) (sec : string) :
  main_opts o so sec
  = if negb (String.eqb sec "E") then
      filter (fun x => negb (Str.startswith "Co2L" x))
             (filter (fun t => negb (String.eqb t "")) (wildcard_pieces o so))
      ++ ["sector"%string]
    else filter (fun t => negb (String.eqb t "")) (wildcard_pieces o so).
Proof.
  unfold main_opts, wildcard_pieces. destruct so as [so|].
  - change (o ++ "-" ++ so)%string with (o ++ String "-" so)%string.
    rewrite split_app. reflexivity.
  - now rewrite app_nil_r.
Qed.

(** X2: the scenario tokens are the hyphen-separated pieces of the
    [opts] wildcard followed by those of the [sector_opts] wildcard, in
    order and without the empty pieces, so that no token is empty or
    holds a hyphen; for a sector other than [E] every token that starts
    with [Co2L] is dropped and [sector] is added as the last token. *)
Theorem main_opts_tokens (wildcards_opts : string) (sector_opts : option string)
    (sector : string) :
  Forall (fun t => t <> EmptyString /\ has_char "-" t = false)
         (main_opts wildcards_opts sector_opts sector)
  /\ (sector = "E"%string ->
      main_opts wildcards_opts sector_opts sector
      = filter (fun t => negb (String.eqb t ""))
               (wildcard_pieces wildcards_opts sector_opts))
  /\ (sector <> "E"%string ->
      Forall (fun t => Str.startswith "Co2L" t = false)
             (main_opts wildcards_opts sector_opts sector)
      /\ main_opts wildcards_opts sector_opts sector
         = filter (fun x => negb (Str.startswith "Co2L" x))
                  (main_opts wildcards_opts sector_opts "E")
           ++ ["sector"%string]).
Proof.
  assert (Hbase : Forall (fun t => t <> EmptyString /\ has_char "-" t = false)
                         (filter (fun t => negb (String.eqb t ""))
                                 (wildcard_pieces wildcards_opts sector_opts))).
  { apply Forall_forall. intros t Ht. apply filter_In in Ht. destruct Ht as [Ht Hne].
    split.
    - intros ->. discriminate.
    - unfold wildcard_pieces in Ht. apply in_app_or in Ht.
      destruct Ht as [Ht|Ht].
      + destruct (split_pieces "-" wildcards_opts) as [_ HF].
        rewrite Forall_forall in HF. now apply HF.
      + destruct sector_opts as [so|]; [|contradiction].
        destruct (split_pieces "-" so) as [_ HF].
        rewrite Forall_forall in HF. now apply HF. }
  rewrite !main_opts_pieces. split; [|split].
  - destruct (negb (String.eqb sector "E")); [|exact Hbase].
    apply Forall_app. split.
    + now apply Forall_filter.
    + constructor; [|constructor]. split; [discriminate | reflexivity].
  - intros ->. reflexivity.
  - intros Hsec. apply String.eqb_neq in Hsec. rewrite Hsec. simpl negb. cbv iota.
    split; [|reflexivity].
    apply Forall_app. split.
    + eapply Forall_impl; [|apply Forall_filter_true].
      intros t Ht. now apply negb_true_iff in Ht.
    + constructor; [reflexivity | constructor].
Qed.

(** The tokens of a sector study: the emission-limit token is gone and
    [sector] closes the list. *)
Lemma main_opts_tokens_witness :
  main_opts "Co2L0.5-RPS-SAFE-24H" (Some "TCT"%string) "E-G"
  = ["RPS"; "SAFE"; "24H"; "TCT"; "sector"]%string.
Proof.
  assert (Hsec : "E-G"%string <> "E"%string) by discriminate.
  rewrite (proj2 (proj2 (proj2 (main_opts_tokens "Co2L0.5-RPS-SAFE-24H"
                                  (Some "TCT"%string) "E-G")) Hsec)).
  reflexivity.
Defined.

(* ===================================================================== *)
(** ** Natural-gas trade tables *)
(* ===================================================================== *)

Lemma split_two_pieces (c : ascii) (s : string) :
  has_char c s = true -> exists a b t, Str.split c s = a :: b :: t.
Proof.
  induction s as [|d r IH]; simpl; [discriminate|].
  destruct (Ascii.eqb d c) eqn:E; simpl.
  - intros _. destruct (split_pieces c r) as [Hne _].
    destruct (Str.split c r) as [|h t]; [congruence|]. now exists EmptyString, h, t.
  - intros H. destruct (IH H) as [a [b [t Hs]]]. rewrite Hs.
    now exists (String d a), b, t.
Qed.

Lemma format_link_name_spec (s : string) :
  (has_char "-" s = false -> format_link_name s = Raise IndexError)
  /\ (has_char "-" s = true -> exists link, format_link_name s = Ok link).
Proof.
  unfold format_link_name. split; intros H.
  - now rewrite (split_no_sep _ _ H).
  - destruct (split_two_pieces _ _ H) as [a [b [t ->]]]. eexists. reflexivity.
Qed.

(** X3: a state pair [a-b] gives the link name [a b gas], whatever
    follows a second hyphen being ignored, and a state code without a
    hyphen raises [IndexError]; the domestic trade table is therefore
    built exactly when every row's state code holds a hyphen, with one
    right-hand side per row, the volume times 1000 over the conversion
    constant, and fails with [IndexError] as soon as one row has
    none. *)
Theorem format_domestic_data_spec (NG_MWH_2_MMCF : Q) (prod : list Trade)
    (link_suffix : option string) :
  (forall a b, has_char "-" a = false -> has_char "-" b = false ->
               format_link_name (a ++ "-" ++ b) = Ok (a ++ " " ++ b ++ " gas")%string
               /\ forall c, format_link_name (a ++ "-" ++ b ++ "-" ++ c)
                            = Ok (a ++ " " ++ b ++ " gas")%string)
  /\ (Exists (fun r => has_char "-" (trade_state r) = false) prod ->
      format_domestic_data NG_MWH_2_MMCF prod link_suffix = Raise IndexError)
  /\ (Forall (fun r => has_char "-" (trade_state r) = true) prod ->
      exists rows,
        format_domestic_data NG_MWH_2_MMCF prod link_suffix = Ok rows
        /\ map snd rows
           = map (fun r => (trade_value r * 1000 / NG_MWH_2_MMCF)%Q) prod).
Proof.
  split; [|split].
  - intros a b Ha Hb. unfold format_link_name. split.
    + change (a ++ "-" ++ b)%string with (a ++ String "-" b)%string.
      now rewrite (split_app_sep _ _ _ Ha), (split_no_sep _ _ Hb).
    + intros c.
      change (a ++ "-" ++ b ++ "-" ++ c)%string
        with (a ++ String "-" (b ++ String "-" c))%string.
      now rewrite (split_app_sep _ _ _ Ha), (split_app_sep _ _ _ Hb).
  - induction prod as [|r rest IH]; intros H; [inversion H|]. simpl.
    destruct (has_char "-" (trade_state r)) eqn:E.
    + destruct (proj2 (format_link_name_spec _) E) as [link ->].
      inversion H as [? ? Hr|? ? Hrest]; subst; [congruence|].
      now rewrite (IH Hrest).
    + now rewrite (proj1 (format_link_name_spec _) E).
  - induction 1 as [|r rest Hr _ [rows [IH1 IH2]]]; simpl.
    + now exists [].
    + destruct (proj2 (format_link_name_spec _) Hr) as [link ->].
      rewrite IH1. eexists. split; [reflexivity|]. simpl. now rewrite IH2.
Qed.

(** A table with the row [USA] fails with [IndexError]. *)
Lemma format_domestic_data_spec_witness :
  format_domestic_data 3 sample_trade (Some " export"%string) = Raise IndexError.
Proof.
  apply (proj1 (proj2 (format_domestic_data_spec 3 sample_trade (Some " export"%string)))).
  apply Exists_cons_tl. apply Exists_cons_hd. reflexivity.
Defined.

(* ===================================================================== *)
(** ** Portfolio standards: what is registered, and what it means *)
(* ===================================================================== *)

(** X4: when every planning horizon met has a snapshot, the portfolio
    standards register exactly one constraint, and log one record, for
    each row with a positive [pct] and a realised horizon whose region
    has a bus and a generator, in table order, and nothing for any other
    row; the call returns normally. *)
Theorem add_RPS_constraints_exact (planning_horizons : list Z)
    (ps : list PortfolioStandard) (w : World) :
  let compiled := filter (rps_compiled (net w)) (rps_surviving planning_horizons ps) in
  (forall row, In row compiled ->
               exists d, region_demand (net w) (ps_planning_horizon row)
                                       (index (rps_region (net w) row)) = Ok d) ->
  exists new,
    add_RPS_constraints planning_horizons ps w
    = (Ok tt,
       {| net := net w;
          model := model w ++ new;
          records := records w ++ map rps_info compiled;
          solver_calls := solver_calls w;
          infeasibility_reports := infeasibility_reports w |})
    /\ Forall2 (fun row c =>
                  exists d, region_demand (net w) (ps_planning_horizon row)
                                          (index (rps_region (net w) row)) = Ok d
                            /\ c = rps_registered (net w) row d)
               compiled new.
Proof.
  intros compiled Hd.
  exact (add_RPS_rows_exact (net w) (rps_surviving planning_horizons ps) Hd w eq_refl).
Qed.

(** Two standards on the sample network, one of them for a region
    without bus: one constraint and one log record. *)
Lemma add_RPS_constraints_exact_witness :
  exists new,
    add_RPS_constraints [2030] [texas_standard; half_solar_standard] (fresh sample_network)
    = (Ok tt,
       {| net := sample_network;
          model := new;
          records := [rps_info half_solar_standard];
          solver_calls := [];
          infeasibility_reports := 0%nat |})
    /\ length new = 1%nat.
Proof.
  destruct (add_RPS_constraints_exact [2030] [texas_standard; half_solar_standard]
              (fresh sample_network)) as [new [Hrun HF]].
  - intros row [<-|[]]. eexists. reflexivity.
  - exists new. split; [exact Hrun|].
    apply Forall2_length in HF. simpl in HF. now rewrite <- HF.
Defined.

Lemma eval_singletons (sigma : Var -> Q) (vars : list Var) :
  (eval sigma (concat (map (fun v => [(1%Q, v)]) vars)) == Qsum (map sigma vars))%Q.
Proof.
  unfold eval. induction vars as [|v vars IH]; simpl; [reflexivity|].
  rewrite IH. ring.
Qed.

Lemma sel_rows (v : string) (idx : list string) (sns : list Snapshot) :
  flat_map (fun s => map (fun l => [(1%Q, mkVar v (Some s) l)]) idx) sns
  = map (fun x => [(1%Q, x)])
        (flat_map (fun s => map (fun l => mkVar v (Some s) l) idx) sns).
Proof.
  induction sns as [|s sns IH]; simpl; [reflexivity|].
  now rewrite map_app, map_map, IH.
Qed.

Lemma rps_registered_meaning (n : Network) (row : PortfolioStandard) (d : Q)
    (sigma : Var -> Q) :
  satisfies (snapshots n) sigma (rps_registered n row d)
  <-> (ps_pct row * d <= Qsum (map sigma (rps_variables n row)))%Q.
Proof.
  unfold satisfies, rps_registered, rps_variables. cbn [lhs rhs csense denote].
  rewrite sel_rows. split.
  - intros [rows [r [Hd [Hr HF]]]]. injection Hd as <-. injection Hr as <-.
    inversion HF as [|? ? Hrow _]; subst. simpl in Hrow.
    now rewrite eval_singletons in Hrow.
  - intros H. eexists. eexists. split; [reflexivity|]. split; [reflexivity|].
    constructor; [|constructor]. simpl. now rewrite eval_singletons.
Qed.

(** X5: the constraint registered for a portfolio-standard row holds
    under an assignment exactly when the dispatch of the eligible
    generators, summed as it stands over the snapshots of the row's
    horizon, reaches [pct] times the region demand. *)
Theorem add_RPS_row_meaning (row : PortfolioStandard) (w : World) (d : Q) :
  rps_compiled (net w) row = true ->
  region_demand (net w) (ps_planning_horizon row) (index (rps_region (net w) row)) = Ok d ->
  model (snd (add_RPS_row row w)) = model w ++ [rps_registered (net w) row d]
  /\ forall sigma,
       satisfies (snapshots (net w)) sigma (rps_registered (net w) row d)
       <-> (ps_pct row * d <= Qsum (map sigma (rps_variables (net w) row)))%Q.
Proof.
  intros Hc Hd. rewrite (add_RPS_row_compiled (net w) row w eq_refl Hc), Hd.
  split; [reflexivity|]. intros sigma. apply rps_registered_meaning.
Qed.

(** On the sample network: the one-half standard holds exactly when the
    solar dispatch over the two snapshots reaches the right-hand side. *)
Lemma add_RPS_row_meaning_witness :
  model (snd (add_RPS_row half_solar_standard (fresh sample_network)))
  = model (fresh sample_network)
    ++ [rps_registered sample_network half_solar_standard (700 # 1)]
  /\ forall sigma,
       satisfies (snapshots sample_network) sigma
                 (rps_registered sample_network half_solar_standard (700 # 1))
       <-> (ps_pct half_solar_standard * (700 # 1)
            <= Qsum (map sigma (rps_variables sample_network half_solar_standard)))%Q.
Proof.
  exact (add_RPS_row_meaning half_solar_standard (fresh sample_network) (700 # 1)
           eq_refl eq_refl).
Defined.

(** X6: a row whose region has generators, none of them of a listed
    carrier, still gets its constraint; the left-hand side then sums over
    no variable, and with a positive [pct] times demand no assignment
    satisfies it. *)
Theorem add_RPS_row_no_eligible (row : PortfolioStandard) (w : World) (d : Q) :
  rps_compiled (net w) row = true ->
  rps_eligible (net w) row = [] ->
  region_demand (net w) (ps_planning_horizon row) (index (rps_region (net w) row)) = Ok d ->
  (0 < ps_pct row * d)%Q ->
  model (snd (add_RPS_row row w)) = model w ++ [rps_registered (net w) row d]
  /\ operand_size (snapshots (net w)) (lhs (rps_registered (net w) row d)) = Some 0%nat
  /\ forall sigma, ~ satisfies (snapshots (net w)) sigma (rps_registered (net w) row d).
Proof.
  intros Hc He Hd Hpos.
  assert (Hm : model (snd (add_RPS_row row w))
               = model w ++ [rps_registered (net w) row d])
    by now rewrite (add_RPS_row_compiled (net w) row w eq_refl Hc), Hd.
  pose proof (rps_registered_meaning (net w) row d) as Hsat.
  split; [exact Hm|]. split.
  - unfold operand_size, rps_registered. cbn [lhs denote]. rewrite He. simpl.
    f_equal. rewrite app_nil_r. induction (period_snapshots _ _); simpl; auto.
  - intros sigma Hs. apply Hsat in Hs. unfold rps_variables in Hs. rewrite He in Hs.
    assert (Hz : flat_map (fun s : Snapshot =>
                             map (fun l => mkVar "Generator-p" (Some s) l) (map name []))
                          (period_snapshots (snapshots (net w)) (ps_planning_horizon row))
                 = []).
    { induction (period_snapshots _ _); simpl; auto. }
    rewrite Hz in Hs. simpl in Hs. lra.
Qed.

(** The sample network has no wind generator: the wind standard is
    registered and cannot be met. *)
Lemma add_RPS_row_no_eligible_witness :
  model (snd (add_RPS_row wind_standard (fresh sample_network)))
  = model (fresh sample_network) ++ [rps_registered sample_network wind_standard (700 # 1)]
  /\ operand_size (snapshots sample_network)
                  (lhs (rps_registered sample_network wind_standard (700 # 1)))
     = Some 0%nat
  /\ forall sigma,
       ~ satisfies (snapshots sample_network) sigma
           (rps_registered sample_network wind_standard (700 # 1)).
Proof.
  refine (add_RPS_row_no_eligible wind_standard (fresh sample_network)
            (700 # 1) eq_refl eq_refl eq_refl _).
  reflexivity.
Defined.

Lemma region_demand_no_snapshot (n : Network) (h : Z) (ri : list string) :
  (forall s, In s (snapshots n) -> period s <> h) ->
  region_demand n h ri = Raise (KeyError (Str.of_Z h)).
Proof.
  intros H. unfold region_demand, region_loads, loc_period.
  rewrite filter_none; [reflexivity|].
  intros [s r] Hin. apply in_combine_l in Hin. simpl.
  apply Z.eqb_neq. now apply H.
Qed.

Lemma region_demand_raises (n : Network) (h : Z) (ri : list string) (e : exn) :
  region_demand n h ri = Raise e -> e = KeyError (Str.of_Z h).
Proof.
  unfold region_demand, region_loads, loc_period.
  destruct (filter _ _); [|discriminate]. intros H. now injection H.
Qed.

Lemma add_RPS_rows_missing_horizon (n : Network) (rows : list PortfolioStandard)
    (row : PortfolioStandard) :
  In row rows -> rps_compiled n row = true ->
  (forall s, In s (snapshots n) -> period s <> ps_planning_horizon row) ->
  forall w, net w = n ->
    exists k w', for_each rows add_RPS_row w = (Raise (KeyError k), w') /\ net w' = n.
Proof.
  intros Hin Hc Hno. induction rows as [|r rows IH]; [contradiction|].
  intros w Hn. simpl for_each. unfold bind.
  destruct (rps_compiled n r) eqn:Ec.
  - rewrite (add_RPS_row_compiled n r w Hn Ec).
    destruct (region_demand n (ps_planning_horizon r) _) as [d|e] eqn:Ed.
    + destruct Hin as [->|Hin].
      * rewrite (region_demand_no_snapshot _ _ _ Hno) in Ed. discriminate.
      * apply (IH Hin). exact Hn.
    + rewrite (region_demand_raises _ _ _ _ Ed). eexists. exists w. now split.
  - rewrite (add_RPS_row_not_compiled n r Ec w Hn).
    destruct Hin as [->|Hin]; [congruence|]. now apply IH.
Qed.

(** X7: a planning horizon that is configured but has no snapshot in
    the network is not skipped: as soon as a row with a positive [pct]
    for such a horizon names a region with a bus and a generator, the
    portfolio standards end in [KeyError]. *)
Theorem add_RPS_constraints_missing_horizon (planning_horizons : list Z)
    (ps : list PortfolioStandard) (row : PortfolioStandard) (w : World) :
  In row ps ->
  (0 < ps_pct row)%Q ->
  In (ps_planning_horizon row) planning_horizons ->
  rps_compiled (net w) row = true ->
  (forall s, In s (snapshots (net w)) -> period s <> ps_planning_horizon row) ->
  exists k w',
    add_RPS_constraints planning_horizons ps w = (Raise (KeyError k), w')
    /\ net w' = net w.
Proof.
  intros Hin Hpos Hh Hc Hno.
  apply (add_RPS_rows_missing_horizon (net w) _ row); trivial.
  apply filter_In. split; [|now apply Zisin_In].
  apply filter_In. split; [assumption|].
  apply negb_true_iff. apply not_true_is_false. intros Hle.
  apply Qle_bool_iff in Hle. lra.
Qed.

(** The sample network has snapshots for 2030 only: a standard for a
    configured horizon 2040 raises. *)
Lemma add_RPS_constraints_missing_horizon_witness :
  exists k w',
    add_RPS_constraints [2030; 2040] [solar_2040_standard] (fresh sample_network)
    = (Raise (KeyError k), w')
    /\ net w' = sample_network.
Proof.
  apply (add_RPS_constraints_missing_horizon [2030; 2040] [solar_2040_standard]
           solar_2040_standard (fresh sample_network)).
  - now left.
  - reflexivity.
  - simpl. auto.
  - reflexivity.
  - intros s [<-|[<-|[]]]; discriminate.
Defined.

(* ===================================================================== *)
(** ** Sector emission limits: what is registered *)
(* ===================================================================== *)

Lemma appends_for_fold {A S} n P (xs : list A) (s : S) (body : S -> A -> M S) :
  (forall s' x, In x xs -> appends_at n P (body s' x)) ->
  appends_at n P (for_fold xs s body).
Proof.
  revert s. induction xs as [|x xs IH]; intros s Hb; simpl.
  - apply appends_ret.
  - apply appends_bind.
    + apply Hb. now left.
    + intros s'. apply IH. intros s'' y Hy. apply Hb. now right.
Qed.

Lemma endswith_append (p q : string) : Str.endswith q (p ++ q)%string = true.
Proof.
  induction p as [|c p IH]; cbn [String.append Str.endswith].
  - destruct q; [reflexivity|]. cbn [Str.endswith]. now rewrite String.eqb_refl.
  - destruct (String.eqb _ _); [reflexivity | exact IH].
Qed.

Lemma endswith_longer (p q s : string) :
  Str.endswith (p ++ q)%string s = true -> Str.endswith q s = true.
Proof.
  induction s as [|c r IH]; cbn [Str.endswith].
  - destruct (String.eqb "" (p ++ q)) eqn:E; [|discriminate].
    apply String.eqb_eq in E. destruct p; [|discriminate]. simpl in E. subst q.
    reflexivity.
  - destruct (String.eqb (String c r) (p ++ q)) eqn:E.
    + intros _. apply String.eqb_eq in E.
      pose proof (endswith_append p q) as H. rewrite <- E in H. exact H.
    + intros H. rewrite (IH H). now destruct (String.eqb (String c r) q).
Qed.

Lemma apply_year_appends (n : Network) (df df_state : list Co2Policy)
    (sector state : string) (year : Z) :
  (forall r, In r df_state -> In r df /\ co2_state r = state) ->
  In year (investment_periods n) ->
  appends_at n (co2_registered n df) (SectorCo2.apply_year df_state sector state year).
Proof.
  intros Hsub Hyear. unfold SectorCo2.apply_year.
  destruct (filter _ df_state) as [|row [|? ?]] eqn:Ef; try apply appends_raise.
  assert (Hrow : In row (filter (fun r => Z.eqb (co2_year r) year) df_state))
    by (rewrite Ef; now left).
  apply filter_In in Hrow. destruct Hrow as [Hrow Hy]. apply Z.eqb_eq in Hy.
  destruct (Hsub row Hrow) as [Hdf Hst].
  destruct (String.eqb (SectorCo2.upper state) "USA") eqn:Eusa;
    destruct (String.eqb sector "all") eqn:Eall;
    [ unfold SectorCo2.apply_total_national_limit
    | unfold SectorCo2.apply_sector_national_limit
    | unfold SectorCo2.apply_total_state_limit
    | unfold SectorCo2.apply_sector_state_limit ];
    apply appends_get_net; apply appends_lift_bind; intros snapshot Hsnap;
    (apply appends_bind; [|intros; apply appends_log]);
    apply appends_add; exists row, snapshot; eexists;
    (split; [exact Hdf|]); (split; [now rewrite Hy|]);
    (split; [now rewrite Hy|]);
    (split; [reflexivity|]); (split; [reflexivity|]); (split; [reflexivity|]);
    (split;
     [ intros s Hs; apply filter_In in Hs; destruct Hs as [Hs Hp];
       split; [exact Hs|];
       rewrite ?andb_true_iff, ?orb_true_iff in Hp;
       intuition eauto using endswith_longer
     | intros Hne s Hs; apply filter_In in Hs; destruct Hs as [Hs Hp];
       rewrite ?andb_true_iff in Hp;
       try (rewrite Hst; tauto);
       rewrite Hst in Hne; apply String.eqb_eq in Eusa; contradiction ]).
Qed.

Lemma apply_state_appends (n : Network) (df df_sector : list Co2Policy)
    (sector : string) (year : option Z) (state : string) :
  (forall r, In r df_sector -> In r df) ->
  appends_at n (co2_registered n df) (SectorCo2.apply_state n df_sector sector year state).
Proof.
  intros Hsub. unfold SectorCo2.apply_state.
  destruct (is_nil _).
  - destruct year; [|apply appends_raise].
    apply appends_bind; [apply appends_log | intros; apply appends_ret].
  - apply appends_for_fold. intros _ y Hy.
    apply appends_bind; [|intros; apply appends_ret].
    apply filter_In in Hy. destruct Hy as [_ Hy]. apply Zisin_In in Hy.
    apply apply_year_appends; [|exact Hy].
    intros r Hr. apply filter_In in Hr. destruct Hr as [Hr Hst].
    split; [now apply Hsub | now apply String.eqb_eq].
Qed.

Lemma apply_sector_appends (n : Network) (df : list Co2Policy)
    (year : option Z) (sector : string) :
  appends_at n (co2_registered n df) (SectorCo2.apply_sector n df year sector).
Proof.
  unfold SectorCo2.apply_sector.
  apply appends_for_fold. intros year' state _.
  apply apply_state_appends.
  intros r Hr. apply filter_In in Hr. tauto.
Qed.

Lemma add_sector_co2_constraints_appends (n : Network) (cfg : Config) :
  appends_at n (fun c => exists df, co2_policy cfg = Some df /\ co2_registered n df c)
             (add_sector_co2_constraints cfg).
Proof.
  unfold add_sector_co2_constraints.
  destruct (co2_policy cfg) as [df|] eqn:Ecfg; [|apply appends_log].
  destruct (is_nil df); [apply appends_log|].
  apply appends_get_net.
  apply appends_bind; [|intros; apply appends_ret].
  apply (appends_weaken n (co2_registered n df));
    [intros c Hc; exists df; now split|].
  apply appends_for_fold. intros year sector _.
  apply apply_sector_appends.
Qed.

(** X9: whatever the policy table, and whether the call returns or
    raises, every constraint that the sector emission limits have
    registered comes from a policy row whose year is an investment period
    of the network, is an upper bound by that row's limit times one
    million, and sums the level, at the last snapshot of that year, of
    stores of the network whose name ends with [-co2] or [-ch4] (and
    starts with the state, unless the state is [USA] in any case); the
    network is left alone, and without a configured policy nothing is
    registered. *)
Theorem add_sector_co2_constraints_sound (cfg : Config) (w : World) :
  net (snd (add_sector_co2_constraints cfg w)) = net w
  /\ exists new,
       model (snd (add_sector_co2_constraints cfg w)) = model w ++ new
       /\ Forall (fun c => exists df,
                      co2_policy cfg = Some df /\ co2_registered (net w) df c) new.
Proof.
  apply appends_run. apply add_sector_co2_constraints_appends.
Qed.

(** X10: for one year and state, the economy-wide limit counts every
    store that a limit for one sector counts: the stores summed by
    [apply_sector_state_limit] are among those summed by
    [apply_total_state_limit], and likewise for the two national
    limits. *)
Theorem sector_stores_within_total (year : Z) (state sector : string)
    (value_sector value_total : Q) (w : World) (snapshot : Snapshot) :
  last_snapshot (net w) year = Ok snapshot ->
  (exists sel_sector sel_total,
      map lhs (model (snd (SectorCo2.apply_sector_state_limit year state sector
                             value_sector w)))
      = map lhs (model w) ++ [Sum (LocAt "Store-e" snapshot sel_sector)]
      /\ map lhs (model (snd (SectorCo2.apply_total_state_limit year state value_total w)))
         = map lhs (model w) ++ [Sum (LocAt "Store-e" snapshot sel_total)]
      /\ incl sel_sector sel_total)
  /\ (exists sel_sector sel_total,
         map lhs (model (snd (SectorCo2.apply_sector_national_limit year sector
                                value_sector w)))
         = map lhs (model w) ++ [Sum (LocAt "Store-e" snapshot sel_sector)]
         /\ map lhs (model (snd (SectorCo2.apply_total_national_limit year value_total w)))
            = map lhs (model w) ++ [Sum (LocAt "Store-e" snapshot sel_total)]
         /\ incl sel_sector sel_total).
Proof.
  intros Hsnap.
  unfold SectorCo2.apply_sector_state_limit, SectorCo2.apply_total_state_limit,
    SectorCo2.apply_sector_national_limit, SectorCo2.apply_total_national_limit,
    bind, get_net, lift, add_constraints, log.
  rewrite Hsnap. cbn [snd model]. rewrite !map_app. cbn [map lhs].
  split; eexists; eexists; (split; [reflexivity|]); (split; [reflexivity|]);
    intros s Hs; apply filter_In in Hs; destruct Hs as [Hs Hp]; apply filter_In;
    (split; [exact Hs|]);
    rewrite ?andb_true_iff, ?orb_true_iff in *;
    intuition eauto using endswith_longer.
Qed.

(** On the network with residential, commercial and power stores of
    California, the residential limit sums one store, and the total limit
    sums it with the other two. *)
Lemma sector_stores_within_total_witness :
  exists sel_sector sel_total,
    map lhs (model (snd (SectorCo2.apply_sector_state_limit 2030 "CA" "res" 1
                           (fresh gas_network))))
    = [Sum (LocAt "Store-e" {| period := 2030; timestep := 1 |} sel_sector)]
    /\ map lhs (model (snd (SectorCo2.apply_total_state_limit 2030 "CA" 5
                              (fresh gas_network))))
       = [Sum (LocAt "Store-e" {| period := 2030; timestep := 1 |} sel_total)]
    /\ incl sel_sector sel_total.
Proof.
  exact (proj1 (sector_stores_within_total 2030 "CA" "res" 1 5 (fresh gas_network)
                  {| period := 2030; timestep := 1 |} eq_refl)).
Defined.

(* ===================================================================== *)
(** ** Sector emission limits: duplicate rows *)
(* ===================================================================== *)

Lemma for_fold_raises {A S} n P (xs : list A) (x : A) (body : S -> A -> M S) :
  (forall s y, In y xs -> appends_at n P (body s y)) ->
  In x xs ->
  (forall s, raises_at n (body s x)) ->
  forall s0, raises_at n (for_fold xs s0 body).
Proof.
  intros Happ Hin Hx. induction xs as [|a xs IH]; [contradiction|].
  intros s0 w Hn. simpl. unfold bind.
  destruct (body s0 a w) as [[s1|e] w1] eqn:E.
  - destruct Hin as [->|Hin].
    + destruct (Hx s0 w Hn) as [e [w' He]]. congruence.
    + destruct (Happ s0 a (or_introl eq_refl) w _ _ Hn E) as [Hn1 _].
      apply IH; trivial. intros s y Hy. apply Happ. now right.
  - now exists e, w1.
Qed.

Lemma In_into_unique {A} (eqb : A -> A -> bool) (l : list A) (x : A) :
  (forall a b, eqb a b = true <-> a = b) -> In x l -> In x (unique eqb l).
Proof.
  intros Heq. induction l as [|a l IH]; simpl; [tauto|].
  intros [->|H]; [now left|].
  destruct (eqb x a) eqn:E.
  - left. symmetry. now apply Heq.
  - right. apply filter_In. split; [now apply IH|]. now rewrite E.
Qed.

Lemma filter_filter_and {A} (f g : A -> bool) (l : list A) :
  filter f (filter g l) = filter (fun x => g x && f x) l.
Proof.
  induction l as [|a l IH]; simpl; [reflexivity|].
  destruct (g a); simpl; [destruct (f a)|]; now rewrite IH.
Qed.

Lemma string_eqb_spec (a b : string) : String.eqb a b = true <-> a = b.
Proof. apply String.eqb_eq. Qed.

Lemma Z_eqb_spec (a b : Z) : Z.eqb a b = true <-> a = b.
Proof. apply Z.eqb_eq. Qed.

(** X11: two or more policy rows for the same sector, state and
    realised year are never registered side by side:
    [add_sector_co2_constraints] then ends in an exception, at the latest
    with the [AssertionError] of the group of rows in question. *)
Theorem add_sector_co2_constraints_duplicate (cfg : Config) (df : list Co2Policy)
    (w : World) (sector state : string) (year : Z) :
  co2_policy cfg = Some df ->
  In year (investment_periods (net w)) ->
  (2 <= length (filter (fun r => String.eqb (co2_sector r) sector
                                 && String.eqb (co2_state r) state
                                 && Z.eqb (co2_year r) year) df))%nat ->
  exists e w', add_sector_co2_constraints cfg w = (Raise e, w').
Proof.
  intros Hcfg Hyear Hdup.
  set (n := net w).
  assert (Hrow : exists r, In r df /\ co2_sector r = sector /\ co2_state r = state
                           /\ co2_year r = year).
  { destruct (filter _ df) as [|r l] eqn:Ef; [simpl in Hdup; lia|].
    assert (Hr : In r (filter (fun r => String.eqb (co2_sector r) sector
                                        && String.eqb (co2_state r) state
                                        && Z.eqb (co2_year r) year) df))
      by (rewrite Ef; now left).
    apply filter_In in Hr. destruct Hr as [Hr Hp].
    rewrite !andb_true_iff in Hp. destruct Hp as [[Hs Hst] Hy].
    exists r. repeat split; trivial;
      [now apply String.eqb_eq | now apply String.eqb_eq | now apply Z.eqb_eq]. }
  destruct Hrow as [r [Hr [Hs [Hst Hy]]]].
  unfold add_sector_co2_constraints. rewrite Hcfg.
  destruct df as [|r0 rest] eqn:Edf; [contradiction|]. rewrite <- Edf in *.
  cbn [is_nil]. assert (Hnil : is_nil df = false) by (rewrite Edf; reflexivity).
  rewrite Hnil.
  assert (Hraise : raises_at n (for_fold (unique String.eqb (map co2_sector df)) None
                                  (SectorCo2.apply_sector n df))).
  { apply (for_fold_raises n (co2_registered n df) _ sector).
    - intros; apply apply_sector_appends.
    - apply In_into_unique; [apply string_eqb_spec|].
      apply in_map_iff. now exists r.
    - intros y0. unfold SectorCo2.apply_sector.
      apply (for_fold_raises n (co2_registered n df) _ state).
      + intros. apply apply_state_appends. intros r' Hr'.
        apply filter_In in Hr'. tauto.
      + apply In_into_unique; [apply string_eqb_spec|].
        apply in_map_iff. exists r. split; [assumption|].
        apply filter_In. split; [assumption|]. rewrite Hs. apply String.eqb_refl.
      + intros y1. unfold SectorCo2.apply_state.
        assert (Hin : In year
                        (filter (fun x => Zisin x (investment_periods n))
                           (unique Z.eqb
                              (map co2_year
                                 (filter (fun r => String.eqb (co2_state r) state)
                                    (filter (fun r => String.eqb (co2_sector r) sector)
                                            df)))))).
        { apply filter_In. split; [|now apply Zisin_In].
          apply In_into_unique; [apply Z_eqb_spec|].
          apply in_map_iff. exists r. split; [assumption|].
          apply filter_In. split; [|rewrite Hst; apply String.eqb_refl].
          apply filter_In. split; [assumption|]. rewrite Hs. apply String.eqb_refl. }
        destruct (filter (fun x => Zisin x (investment_periods n)) _) as [|y ys] eqn:Ey;
          [contradiction|].
        cbn [is_nil]. rewrite <- Ey in *.
        apply (for_fold_raises n (co2_registered n df) _ year); [|exact Hin|].
        * intros s y' Hy'. apply appends_bind; [|intros; apply appends_ret].
          apply filter_In in Hy'. destruct Hy' as [_ Hy']. apply Zisin_In in Hy'.
          apply apply_year_appends; [|exact Hy'].
          intros r' Hr'. apply filter_In in Hr'. destruct Hr' as [Hr' Hst'].
          apply filter_In in Hr'. split; [tauto | now apply String.eqb_eq].
        * intros s w1 Hn1. unfold bind, SectorCo2.apply_year.
          assert (Hlen : (2 <= length
                            (filter (fun r => Z.eqb (co2_year r) year)
                               (filter (fun r => String.eqb (co2_state r) state)
                                  (filter (fun r => String.eqb (co2_sector r) sector)
                                          df))))%nat).
          { rewrite !filter_filter_and.
            erewrite filter_ext; [exact Hdup|].
            intros x. cbv beta. now rewrite andb_assoc. }
          destruct (filter (fun r => Z.eqb (co2_year r) year) _) as [|a [|b l]];
            simpl in Hlen; try lia.
          eexists; eexists; reflexivity. }
  destruct (Hraise w eq_refl) as [e [w' He]]. exists e, w'.
  unfold bind, get_net. fold n.
  unfold bind in He. rewrite He. reflexivity.
Qed.

(** Two limits for Texas in 2030: the call ends in [AssertionError] and
    registers neither. *)
Lemma add_sector_co2_constraints_duplicate_witness :
  exists e w',
    add_sector_co2_constraints (policy_config [texas_2030_limit; texas_2030_limit])
                               (fresh sample_network)
    = (Raise e, w').
Proof.
  apply (add_sector_co2_constraints_duplicate
           (policy_config [texas_2030_limit; texas_2030_limit])
           [texas_2030_limit; texas_2030_limit] (fresh sample_network) "all" "TX" 2030).
  - reflexivity.
  - simpl. auto.
  - simpl. lia.
Defined.

(* ===================================================================== *)
(** ** Paired links: heat pumps, capacity ratio, batteries *)
(* ===================================================================== *)

Lemma ratio_rows (sns : list Snapshot) (k : Link -> Q) (cs ds : list Link) :
  length cs = length ds ->
  denote sns
    (Sub (Loc "Link-p_nom" (map link_name cs))
         (MulValues (Loc "Link-p_nom" (map link_name ds))
                    (map (fun l => Some (k l)) ds)))
  = Some (zip_with
            (fun c d => [(1%Q, link_capacity c); ((-1 * (k d * 1))%Q, link_capacity d)])
            cs ds).
Proof.
  intros Hlen. simpl. rewrite all_some_map_Some, !length_map, Nat.eqb_refl.
  rewrite zip_with_length by now rewrite !length_map.
  rewrite !length_map, Hlen, Nat.eqb_refl. f_equal.
  clear sns. revert ds Hlen.
  induction cs as [|c cs IH]; intros [|d ds] Hlen; simpl in *; try discriminate;
    [reflexivity|].
  injection Hlen as Hlen. now rewrite IH.
Qed.

Lemma difference_rows (sns : list Snapshot) (hs cs : list Link) :
  length hs = length cs ->
  denote sns (Sub (Loc "Link-p_nom" (map link_name hs))
                  (Loc "Link-p_nom" (map link_name cs)))
  = Some (zip_with
            (fun h c => [(1%Q, link_capacity h); ((-1 * 1)%Q, link_capacity c)])
            hs cs).
Proof.
  intros Hlen. simpl. rewrite !length_map, Hlen, Nat.eqb_refl. f_equal.
  clear sns. revert cs Hlen.
  induction hs as [|h hs IH]; intros [|c cs] Hlen; simpl in *; try discriminate;
    [reflexivity|].
  injection Hlen as Hlen. now rewrite IH.
Qed.

Lemma add_hp_capacity_constraint_run (hp_type : string) (w : World) :
  hp_type = "ashp"%string \/ hp_type = "gshp"%string ->
  links_ending (net w) hp_type <> [] ->
  length (links_ending (net w) hp_type)
  = length (links_ending (net w) (hp_type ++ "-cooling")%string) ->
  HeatPump.add_hp_capacity_constraint hp_type w
  = (Ok tt,
     {| net := net w;
        model :=
          model w
          ++ [{| cname := ("Link-" ++ hp_type ++ "_cooling_capacity")%string;
                 lhs := Sub (Loc "Link-p_nom" (map link_name (links_ending (net w) hp_type)))
                            (Loc "Link-p_nom"
                                 (map link_name
                                      (links_ending (net w)
                                                    (hp_type ++ "-cooling")%string)));
                 csense := EQ;
                 rhs := Const (Some 0%Q) |}];
        records := records w;
        solver_calls := solver_calls w;
        infeasibility_reports := infeasibility_reports w |}).
Proof.
  intros Hty Hheat Hlen.
  unfold HeatPump.add_hp_capacity_constraint.
  assert (Hok : negb (Str.isin hp_type ["ashp"%string; "gshp"%string]) = false)
    by (destruct Hty as [-> | ->]; reflexivity).
  rewrite Hok. unfold bind, get_net.
  rewrite is_nil_map, (is_nil_false _ Hheat), !length_map, Hlen, Nat.eqb_refl.
  reflexivity.
Qed.

(** X12: with as many cooling as heating links of a heat-pump type, and
    at least one, the capacity builder registers one equality, which an
    assignment satisfies exactly when every heating link has the capacity
    of the cooling link at the same position of the table. *)
Theorem add_hp_capacity_constraint_meaning (hp_type : string) (w : World) :
  hp_type = "ashp"%string \/ hp_type = "gshp"%string ->
  links_ending (net w) hp_type <> [] ->
  length (links_ending (net w) hp_type)
  = length (links_ending (net w) (hp_type ++ "-cooling")%string) ->
  exists c,
    HeatPump.add_hp_capacity_constraint hp_type w
    = (Ok tt,
       {| net := net w;
          model := model w ++ [c];
          records := records w;
          solver_calls := solver_calls w;
          infeasibility_reports := infeasibility_reports w |})
    /\ cname c = ("Link-" ++ hp_type ++ "_cooling_capacity")%string
    /\ forall sigma,
         satisfies (snapshots (net w)) sigma c
         <-> Forall2 (fun h c => (sigma (link_capacity h) == sigma (link_capacity c))%Q)
                     (links_ending (net w) hp_type)
                     (links_ending (net w) (hp_type ++ "-cooling")%string).
Proof.
  intros Hty Hheat Hlen.
  rewrite (add_hp_capacity_constraint_run hp_type w Hty Hheat Hlen).
  eexists. split; [reflexivity|]. split; [reflexivity|].
  intros sigma. unfold satisfies. cbn [lhs rhs csense].
  rewrite (difference_rows _ _ _ Hlen).
  assert (Hrow : forall h c,
            holds EQ (eval sigma [(1%Q, link_capacity h); ((-1 * 1)%Q, link_capacity c)]) 0
            <-> (sigma (link_capacity h) == sigma (link_capacity c))%Q).
  { intros h c. unfold holds, eval. simpl. split; intros H; lra. }
  split.
  - intros [rows [r [Hd [Hr HF]]]]. injection Hd as <-. injection Hr as <-.
    apply Forall_zip_with in HF; [|exact Hlen].
    eapply Forall2_impl; [|exact HF]. intros h c H. now apply Hrow.
  - intros HF. eexists. exists 0%Q. split; [reflexivity|]. split; [reflexivity|].
    apply Forall_zip_with; [exact Hlen|].
    eapply Forall2_impl; [|exact HF]. intros h c H. now apply Hrow.
Qed.

(** One heating and one cooling link: the registered equality ties
    their capacities. *)
Lemma add_hp_capacity_constraint_meaning_witness :
  exists c,
    model (snd (HeatPump.add_hp_capacity_constraint "ashp" (fresh heat_pump_network)))
    = [c]
    /\ forall sigma,
         satisfies (snapshots heat_pump_network) sigma c ->
         (sigma (link_capacity heating_link) == sigma (link_capacity cooling_link))%Q.
Proof.
  assert (Hne : links_ending heat_pump_network "ashp" <> []) by (vm_compute; discriminate).
  destruct (add_hp_capacity_constraint_meaning "ashp" (fresh heat_pump_network)
              (or_introl eq_refl) Hne eq_refl) as [c [Hrun [_ Hsat]]].
  exists c. rewrite Hrun. split; [reflexivity|].
  intros sigma Hs. apply Hsat in Hs.
  inversion Hs as [|? ? ? ? H _]; subst. exact H.
Defined.

Lemma frame_columns_missing (frame : list (string * list Q)) (labels : list string) :
  (exists l, In l labels /\ find (fun c => String.eqb (fst c) l) frame = None) ->
  exists k, frame_columns frame labels = Raise (KeyError k) /\ In k labels.
Proof.
  induction labels as [|a labels IH]; intros [l [Hin Hnone]]; [contradiction|].
  simpl. destruct (find (fun c => String.eqb (fst c) a) frame) eqn:Ea.
  - destruct Hin as [->|Hin]; [congruence|].
    destruct (IH (ex_intro _ l (conj Hin Hnone))) as [k [Hk Hink]].
    rewrite Hk. exists k. split; [reflexivity | now right].
  - exists a. split; [reflexivity | now left].
Qed.

(** X13: the generation constraint needs a time-varying efficiency for
    every heating link: when air-source heating and cooling links are
    equally many but some heating link has no column in the efficiency
    frame, the family registers the capacity equality for that type and
    then ends in [KeyError] with the name of such a link, registering no
    generation constraint. *)
Theorem add_cooling_heat_pump_constraints_missing_cop (w : World) :
  links_ending (net w) "ashp" <> [] ->
  length (links_ending (net w) "ashp") = length (links_ending (net w) "ashp-cooling") ->
  (exists l, In l (links_ending (net w) "ashp")
             /\ find (fun c => String.eqb (fst c) (link_name l))
                     (links_t_efficiency (net w)) = None) ->
  exists k c,
    add_cooling_heat_pump_constraints w
    = (Raise (KeyError k),
       {| net := net w;
          model := model w ++ [c];
          records := records w;
          solver_calls := solver_calls w;
          infeasibility_reports := infeasibility_reports w |})
    /\ In k (map link_name (links_ending (net w) "ashp"))
    /\ cname c = "Link-ashp_cooling_capacity"%string.
Proof.
  intros Hheat Hlen [l [Hl Hnone]].
  pose proof (add_hp_capacity_constraint_run "ashp" w (or_introl eq_refl) Hheat Hlen)
    as Hrun.
  destruct (frame_columns_missing (links_t_efficiency (net w))
              (map link_name (links_ending (net w) "ashp"))) as [k [Hk Hink]].
  { exists (link_name l). split; [now apply in_map|exact Hnone]. }
  exists k. eexists. rewrite add_cooling_heat_pump_constraints_phases.
  unfold hp_phase at 1. unfold bind at 1 2. rewrite Hrun.
  unfold HeatPump.add_hp_generation_constraint, bind, get_net, lift.
  cbn [net]. rewrite is_nil_map, (is_nil_false _ Hheat), Hk.
  split; [reflexivity|]. split; [exact Hink | reflexivity].
Qed.

(** The heat pumps of the small network have no efficiency series. *)
Lemma add_cooling_heat_pump_constraints_missing_cop_witness :
  exists k c,
    add_cooling_heat_pump_constraints (fresh heat_pump_network)
    = (Raise (KeyError k),
       {| net := heat_pump_network;
          model := model (fresh heat_pump_network) ++ [c];
          records := [];
          solver_calls := [];
          infeasibility_reports := 0%nat |})
    /\ In k (map link_name (links_ending heat_pump_network "ashp"))
    /\ cname c = "Link-ashp_cooling_capacity"%string.
Proof.
  apply (add_cooling_heat_pump_constraints_missing_cop (fresh heat_pump_network)).
  - vm_compute. discriminate.
  - reflexivity.
  - exists heating_link. split; [vm_compute; auto | reflexivity].
Defined.

(** X14: on a network without a link whose name ends with [ashp] or
    [gshp] the heat-pump family registers nothing and returns
    normally. *)
Theorem add_cooling_heat_pump_constraints_without_heat_pumps (w : World) :
  links_ending (net w) "ashp" = [] ->
  links_ending (net w) "gshp" = [] ->
  add_cooling_heat_pump_constraints w = (Ok tt, w).
Proof.
  intros Ha Hg.
  assert (Hphase : forall hp,
            hp = "ashp"%string \/ hp = "gshp"%string ->
            links_ending (net w) hp = [] -> hp_phase hp w = (Ok tt, w)).
  { intros hp Hty Hnone.
    unfold hp_phase, HeatPump.add_hp_capacity_constraint,
      HeatPump.add_hp_generation_constraint.
    assert (Hok : negb (Str.isin hp ["ashp"%string; "gshp"%string]) = false)
      by (destruct Hty as [-> | ->]; reflexivity).
    rewrite Hok. unfold bind, get_net. rewrite Hnone.
    cbn [map is_nil]. unfold ret. rewrite Hnone. reflexivity. }
  rewrite add_cooling_heat_pump_constraints_phases.
  unfold bind at 1. rewrite (Hphase "ashp"%string (or_introl eq_refl) Ha).
  unfold bind at 1. rewrite (Hphase "gshp"%string (or_intror eq_refl) Hg).
  reflexivity.
Qed.

Lemma add_cooling_heat_pump_constraints_without_heat_pumps_witness :
  add_cooling_heat_pump_constraints (fresh sample_network)
  = (Ok tt, fresh sample_network).
Proof.
  exact (add_cooling_heat_pump_constraints_without_heat_pumps (fresh sample_network)
           eq_refl eq_refl).
Defined.

(** X15: with as many air-source as ground-source links, at least one,
    and an entry of the population dictionary for the first bus of every
    ground-source link, the capacity-ratio family registers one
    constraint, which holds exactly when every air-source capacity is at
    least the urban-to-rural ratio times the ground-source capacity at
    the same position of the table. *)
Theorem add_gshp_capacity_constraint_meaning (fraction : list (string * Q))
    (k : Link -> Q) (w : World) :
  links_ending (net w) "gshp" <> [] ->
  length (links_ending (net w) "ashp") = length (links_ending (net w) "gshp") ->
  (forall l, In l (links_ending (net w) "gshp") -> gshp_fraction fraction l = Some (k l)) ->
  exists c,
    add_gshp_capacity_constraint fraction w
    = (Ok tt,
       {| net := net w;
          model := model w ++ [c];
          records := records w;
          solver_calls := solver_calls w;
          infeasibility_reports := infeasibility_reports w |})
    /\ cname c = "Link-gshp_capacity_ratio"%string
    /\ forall sigma,
         satisfies (snapshots (net w)) sigma c
         <-> Forall2 (fun a g =>
                        (k g * sigma (link_capacity g) <= sigma (link_capacity a))%Q)
                     (links_ending (net w) "ashp") (links_ending (net w) "gshp").
Proof.
  intros Hg Hlen Hfrac.
  unfold add_gshp_capacity_constraint, bind, get_net.
  rewrite (is_nil_false _ Hg), Hlen, Nat.eqb_refl. cbn [negb].
  eexists. split; [reflexivity|]. split; [reflexivity|].
  intros sigma. unfold satisfies. cbn [lhs rhs csense].
  assert (Hmul : map (fun l => option_map snd
                                 (find (fun kv => String.eqb (fst kv) (bus0 l)) fraction))
                     (links_ending (net w) "gshp")
                 = map (fun l => Some (k l)) (links_ending (net w) "gshp")).
  { apply map_ext_in. intros l Hl. exact (Hfrac l Hl). }
  rewrite Hmul, (ratio_rows _ k _ _ Hlen).
  assert (Hrow : forall a g,
            holds GE (eval sigma [(1%Q, link_capacity a);
                                  ((-1 * (k g * 1))%Q, link_capacity g)]) 0
            <-> (k g * sigma (link_capacity g) <= sigma (link_capacity a))%Q).
  { intros a g. unfold holds, eval. simpl.
    set (x := sigma (link_capacity a)). set (y := sigma (link_capacity g)).
    assert (E : (1 * x + (-1 * (k g * 1) * y + 0) == x - k g * y)%Q) by ring.
    rewrite E. split; intros H; lra. }
  split.
  - intros [rows [r [Hd [Hr HF]]]]. injection Hd as <-. injection Hr as <-.
    apply Forall_zip_with in HF; [|exact Hlen].
    eapply Forall2_impl; [|exact HF]. intros a g H. now apply Hrow.
  - intros HF. eexists. exists 0%Q. split; [reflexivity|]. split; [reflexivity|].
    apply Forall_zip_with; [exact Hlen|].
    eapply Forall2_impl; [|exact HF]. intros a g H. now apply Hrow.
Qed.

(** With a ratio of three at bus [p1], the air-source capacity is at
    least three times the ground-source capacity. *)
Lemma add_gshp_capacity_constraint_meaning_witness :
  exists c,
    model (snd (add_gshp_capacity_constraint [("p1"%string, 3%Q)]
                  (fresh two_source_network))) = [c]
    /\ forall sigma,
         satisfies (snapshots two_source_network) sigma c ->
         (3 * sigma (link_capacity ground_source_link)
          <= sigma (link_capacity air_source_link))%Q.
Proof.
  assert (Hne : links_ending two_source_network "gshp" <> [])
    by (vm_compute; discriminate).
  destruct (add_gshp_capacity_constraint_meaning [("p1"%string, 3%Q)] (fun _ => 3%Q)
              (fresh two_source_network) Hne eq_refl) as [c [Hrun [_ Hsat]]].
  - intros l [<-|[]]. reflexivity.
  - exists c. rewrite Hrun. split; [reflexivity|].
    intros sigma Hs. apply Hsat in Hs.
    inversion Hs as [|? ? ? ? H _]; subst. exact H.
Defined.

(** X16: without an extendable link the storage symmetry registers
    nothing; with an extendable link but no extendable battery charger
    or discharger it still registers [Link-charger_ratio], over no
    variable, and every assignment satisfies it. *)
Theorem add_battery_constraints_without_batteries (w : World) :
  (any_link_extendable (net w) = false -> add_battery_constraints w = (Ok tt, w))
  /\ (any_link_extendable (net w) = true ->
      chargers_ext (net w) = [] -> dischargers_ext (net w) = [] ->
      model (snd (add_battery_constraints w)) = model w ++ [charger_ratio (net w)]
      /\ denote (snapshots (net w)) (lhs (charger_ratio (net w))) = Some []
      /\ forall sigma, satisfies (snapshots (net w)) sigma (charger_ratio (net w))).
Proof.
  split.
  - intros H. unfold add_battery_constraints, bind, get_net. now rewrite H.
  - intros Hext Hc Hd. rewrite (add_battery_constraints_run w Hext).
    split; [reflexivity|].
    assert (Hden : denote (snapshots (net w)) (lhs (charger_ratio (net w))) = Some []).
    { unfold charger_ratio. cbn [lhs]. rewrite Hc, Hd. reflexivity. }
    split; [exact Hden|].
    intros sigma. exists [], 0%Q. split; [exact Hden|]. split; [reflexivity|].
    constructor.
Qed.

(** The only extendable link is a heat pump: the empty constraint is
    registered. *)
Lemma add_battery_constraints_without_batteries_witness :
  model (snd (add_battery_constraints (fresh extendable_heat_pump_network)))
  = [charger_ratio extendable_heat_pump_network]
  /\ denote [] (lhs (charger_ratio extendable_heat_pump_network)) = Some []
  /\ forall sigma, satisfies [] sigma (charger_ratio extendable_heat_pump_network).
Proof.
  exact (proj2 (add_battery_constraints_without_batteries
                  (fresh extendable_heat_pump_network)) eq_refl eq_refl eq_refl).
Defined.

Lemma last_ascii_none (s : string) : last_ascii s = None -> s = EmptyString.
Proof.
  destruct s as [|c r]; [reflexivity|]. simpl. destruct (last_ascii r); discriminate.
Qed.

Lemma endswith_last (p s : string) :
  p <> EmptyString -> Str.endswith p s = true -> last_ascii s = last_ascii p.
Proof.
  intros Hp. induction s as [|c r IH]; cbn [Str.endswith].
  - destruct (String.eqb "" p) eqn:E; [|discriminate].
    apply String.eqb_eq in E. congruence.
  - destruct (String.eqb (String c r) p) eqn:E.
    + intros _. apply String.eqb_eq in E. now rewrite E.
    + intros H. specialize (IH H). cbn [last_ascii]. rewrite IH.
      destruct (last_ascii p) eqn:El; [reflexivity|].
      apply last_ascii_none in El. contradiction.
Qed.

(** X17: no link is taken both as the heating and as the cooling
    variant of a heat-pump type: a name that ends with [ashp] (or
    [gshp]) does not end with [ashp-cooling] (or [gshp-cooling]). *)
Theorem heating_cooling_disjoint (n : Network) (hp_type : string) (l : Link) :
  hp_type = "ashp"%string \/ hp_type = "gshp"%string ->
  In l (links_ending n hp_type) ->
  ~ In l (links_ending n (hp_type ++ "-cooling")%string).
Proof.
  intros Hty Hh Hc. unfold links_ending in *.
  apply filter_In in Hh. apply filter_In in Hc.
  destruct Hh as [_ Hh]. destruct Hc as [_ Hc].
  destruct Hty as [-> | ->];
    apply endswith_last in Hh; try discriminate;
    apply endswith_last in Hc; try discriminate;
    rewrite Hh in Hc; discriminate.
Qed.

Lemma heating_cooling_disjoint_witness :
  ~ In heating_link (links_ending heat_pump_network "ashp-cooling").
Proof.
  apply (heating_cooling_disjoint heat_pump_network "ashp" heating_link
           (or_introl eq_refl)).
  vm_compute. auto.
Defined.

(* ===================================================================== *)
(** ** Solve strategy dispatcher: failures and the log *)
(* ===================================================================== *)

(** X18: when the solver options name a set that the [solver_options]
    table does not hold, [solve_network] raises [KeyError] with that name
    before anything else happens: no backend call, no log record, and the
    scenario context is not attached to the network. *)
Theorem solve_network_unknown_solver_options
    (optimize optimize_transmission_expansion_iteratively : solver)
    (optimize_with_rolling_horizon : Kwargs -> Solved -> result unit * Solved)
    (cfg : Config) (solving : Solving) (opts : list string)
    (kwargs : list (string * string)) (w : World) :
  solver_options_set solving <> EmptyString ->
  find (fun kv => String.eqb (fst kv) (solver_options_set solving))
       (solver_options solving) = None ->
  solve_network optimize optimize_transmission_expansion_iteratively
    optimize_with_rolling_horizon cfg solving opts kwargs w
  = (Raise (KeyError (solver_options_set solving)), w).
Proof.
  intros Hset Hnone. unfold solve_network, bind, get_net, lift, lookup_solver_options.
  apply String.eqb_neq in Hset. rewrite Hset, Hnone. reflexivity.
Qed.

Lemma solve_network_unknown_solver_options_witness :
  solve_network (answering "ok" "optimal") (answering "ok" "optimal") rolling_quietly
    sample_config misnamed_solving [] [] (fresh expandable_network)
  = (Raise (KeyError "highs-default"), fresh expandable_network).
Proof.
  apply solve_network_unknown_solver_options.
  - discriminate.
  - reflexivity.
Defined.

(** X19: under the rolling horizon the outcome of [solve_network] is the
    outcome of the backend call alone, made on the network with the
    scenario context attached: it returns the network the backend leaves
    when the backend returns, raises what the backend raises, never logs
    a status warning and never asks for the infeasibility report. *)
Theorem solve_network_rolling_horizon
    (optimize optimize_transmission_expansion_iteratively : solver)
    (optimize_with_rolling_horizon : Kwargs -> Solved -> result unit * Solved)
    (cfg : Config) (solving : Solving) (opts : list string)
    (kwargs kw_opts : list (string * string)) (w : World)
    (r : result unit) (n' : Network) (m' : list Constraint) :
  let k := set_rolling (base_kwargs (net w) cfg solving kwargs kw_opts)
             (get (horizon (options solving)) 365) (get (overlap (options solving)) 0) in
  lookup_solver_options solving = Ok kw_opts ->
  get (rolling_horizon (options solving)) false = true ->
  optimize_with_rolling_horizon k (set_context (net w) cfg opts, model w) = (r, (n', m')) ->
  solve_network optimize optimize_transmission_expansion_iteratively
    optimize_with_rolling_horizon cfg solving opts kwargs w
  = (match r with
     | Ok _ => Ok n'
     | Raise e => Raise e
     end,
     {| net := n';
        model := m';
        records := records w ++ lines_info (net w);
        solver_calls := solver_calls w ++ [RollingHorizon k];
        infeasibility_reports := infeasibility_reports w |}).
Proof.
  intros k Hlookup Hroll Hcall. subst k.
  unfold solve_network, bind, lift, log, ret, attach, call, raise,
    print_infeasibilities, get_net, lines_info.
  rewrite Hlookup, Hroll.
  destruct (existsb s_nom_extendable (lines (net w)));
    cbn [negb net model records solver_calls infeasibility_reports];
    rewrite Hcall; destruct r as [[]|e];
    cbn [net model records solver_calls infeasibility_reports andb negb];
    rewrite ?app_nil_r; reflexivity.
Qed.

Lemma solve_network_rolling_horizon_witness :
  fst (solve_network (answering "warning" "infeasible") (answering "warning" "infeasible")
         rolling_quietly sample_config (solving_with rolling_options) ["RPS"%string] []
         (fresh expandable_network))
  = Ok (set_context expandable_network sample_config ["RPS"%string]).
Proof.
  rewrite (solve_network_rolling_horizon
             (answering "warning" "infeasible") (answering "warning" "infeasible")
             rolling_quietly sample_config (solving_with rolling_options)
             ["RPS"%string] [] [] (fresh expandable_network) (Ok tt)
             (set_context expandable_network sample_config ["RPS"%string]) []
             eq_refl eq_refl eq_refl).
  reflexivity.
Defined.

(** X20: an exception of the direct or of the iterative solve passes
    through [solve_network] unchanged: nothing is logged beyond the note
    on the lines, and the infeasibility report is not requested. *)
Theorem solve_network_backend_raises
    (optimize optimize_transmission_expansion_iteratively : solver)
    (optimize_with_rolling_horizon : Kwargs -> Solved -> result unit * Solved)
    (cfg : Config) (solving : Solving) (opts : list string)
    (kwargs kw_opts : list (string * string)) (w : World)
    (e : exn) (n' : Network) (m' : list Constraint) :
  let s := chosen_strategy (net w) cfg solving kwargs kw_opts in
  lookup_solver_options solving = Ok kw_opts ->
  match s with
  | Direct k => optimize k (set_context (net w) cfg opts, model w) = (Raise e, (n', m'))
  | Iterative k =>
      optimize_transmission_expansion_iteratively k (set_context (net w) cfg opts, model w)
      = (Raise e, (n', m'))
  | RollingHorizon _ => False
  end ->
  solve_network optimize optimize_transmission_expansion_iteratively
    optimize_with_rolling_horizon cfg solving opts kwargs w
  = (Raise e,
     {| net := n';
        model := m';
        records := records w ++ lines_info (net w);
        solver_calls := solver_calls w ++ [s];
        infeasibility_reports := infeasibility_reports w |}).
Proof.
  intros s Hlookup Hcall. subst s. unfold chosen_strategy in *.
  unfold solve_network, bind, lift, log, ret, attach, call, raise,
    print_infeasibilities, get_net, lines_info.
  rewrite Hlookup.
  destruct (get (rolling_horizon (options solving)) false); [contradiction|].
  destruct (get (skip_iterations (options solving)) false);
    destruct (existsb s_nom_extendable (lines (net w)));
    cbn [negb orb andb] in Hcall |- *;
    cbn [net model records solver_calls infeasibility_reports];
    rewrite Hcall;
    cbn [net model records solver_calls infeasibility_reports];
    rewrite ?app_nil_r; reflexivity.
Qed.

Lemma solve_network_backend_raises_witness :
  fst (solve_network (failing (ValueError "solver not installed"))
         (failing (ValueError "solver not installed")) rolling_quietly
         sample_config (solving_with no_options) [] [] (fresh sample_network))
  = Raise (ValueError "solver not installed").
Proof.
  rewrite (solve_network_backend_raises
             (failing (ValueError "solver not installed"))
             (failing (ValueError "solver not installed")) rolling_quietly
             sample_config (solving_with no_options) [] [] [] (fresh sample_network)
             (ValueError "solver not installed")
             (set_context sample_network sample_config []) [] eq_refl eq_refl).
  reflexivity.
Defined.

(* ===================================================================== *)
(** ** Region resolver and component filter: composition *)
(* ===================================================================== *)

Lemma isin_app (x : string) (l1 l2 : list string) :
  Str.isin x (l1 ++ l2) = Str.isin x l1 || Str.isin x l2.
Proof. unfold Str.isin. apply existsb_app. Qed.

Lemma region_mask_app (l1 l2 : list string) (b : Bus) :
  region_mask (l1 ++ l2) b = region_mask l1 b || region_mask l2 b.
Proof.
  unfold region_mask. rewrite !isin_app.
  destruct (Str.isin (country b) l1), (Str.isin (country b) l2),
    (Str.isin (reeds_state b) l1), (Str.isin (reeds_state b) l2),
    (Str.isin (Str.lower (interconnect b)) l1),
    (Str.isin (Str.lower (interconnect b)) l2),
    (Str.isin (nerc_reg b) l1), (Str.isin (nerc_reg b) l2),
    (Str.isin "all" l1), (Str.isin "all" l2); reflexivity.
Qed.

(** X21: resolving a token list put together from two lists gives the
    buses that either list resolves to, and nothing depends on the order
    of the tokens or on a token being repeated. *)
Theorem get_region_buses_union (n : Network) (l1 l2 : list string) :
  (forall b, In b (get_region_buses n (l1 ++ l2))
             <-> In b (get_region_buses n l1) \/ In b (get_region_buses n l2))
  /\ get_region_buses n (l1 ++ l2) = get_region_buses n (l2 ++ l1)
  /\ get_region_buses n (l1 ++ l1) = get_region_buses n l1.
Proof.
  change (get_region_buses n) with (fun l => filter (region_mask l) (buses n)).
  cbv beta. split; [|split].
  - intros b. rewrite !filter_In, region_mask_app, orb_true_iff. tauto.
  - apply filter_ext. intros b. rewrite !region_mask_app. apply orb_comm.
  - apply filter_ext. intros b. rewrite region_mask_app. apply orb_diag.
Qed.

Lemma filter_split_length {A} (f g : A -> bool) (l : list A) :
  (length (filter (fun x => f x && g x) l)
   + length (filter (fun x => f x && negb (g x)) l)
   = length (filter f l))%nat.
Proof.
  induction l as [|a l IH]; simpl; [reflexivity|].
  destruct (f a), (g a); simpl; lia.
Qed.

(** X22: for one component type, horizon, carrier list and bus set, the
    filter called for the extendable and for the non-extendable rows
    splits the active rows of those carriers on those buses: the two
    results share no row, every such row is in one of them, and their
    sizes add up. *)
Theorem filter_components_partition
    (ct : component_type) (planning_horizon : Z) (carrier_list region_buses : list string)
    (w : World) (active : string -> bool) :
  get_active_assets (net w) ct planning_horizon = Ok active ->
  exists ext fixed,
    filter_components ct planning_horizon carrier_list region_buses true w = (Ok ext, w)
    /\ filter_components ct planning_horizon carrier_list region_buses false w
       = (Ok fixed, w)
    /\ (forall c, In c ext -> ~ In c fixed)
    /\ (forall c, In c (df (net w) ct) -> active (name c) = true ->
                  In (carrier c) carrier_list -> In (bus c) region_buses ->
                  In c ext \/ In c fixed)
    /\ (length ext + length fixed
        = length (filter (fun c => active (name c) && Str.isin (carrier c) carrier_list
                                   && Str.isin (bus c) region_buses)
                         (df (net w) ct)))%nat.
Proof.
  intros Hact. unfold filter_components, bind, get_net, lift, ret. rewrite Hact.
  eexists. eexists. split; [reflexivity|]. split; [reflexivity|]. split; [|split].
  - intros c Hc Hf. apply filter_In in Hc. apply filter_In in Hf.
    destruct Hc as [_ Hc]. destruct Hf as [_ Hf].
    rewrite !andb_true_iff, eqb_true_iff in *. destruct Hc as [_ Hc]. destruct Hf as [_ Hf].
    congruence.
  - intros c Hin Ha Hcar Hbus.
    apply isin_In in Hcar. apply isin_In in Hbus.
    destruct (p_nom_extendable c) eqn:E; [left|right];
      apply filter_In; (split; [exact Hin|]);
      rewrite Ha, Hcar, Hbus, E; reflexivity.
  - pose proof (filter_split_length
                  (fun c => active (name c) && Str.isin (carrier c) carrier_list
                            && Str.isin (bus c) region_buses)
                  p_nom_extendable (df (net w) ct)) as H.
    rewrite <- H.
    f_equal; f_equal; apply filter_ext; intros c;
      destruct (p_nom_extendable c); rewrite ?andb_true_r, ?andb_false_r; reflexivity.
Qed.

Lemma filter_components_partition_witness :
  exists ext fixed,
    filter_components Generator 2030 ["coal"; "solar"]%string ["p1"%string] true
      (fresh sample_network) = (Ok ext, fresh sample_network)
    /\ filter_components Generator 2030 ["coal"; "solar"]%string ["p1"%string] false
         (fresh sample_network) = (Ok fixed, fresh sample_network)
    /\ (length ext + length fixed = 2)%nat.
Proof.
  destruct (filter_components_partition Generator 2030 ["coal"; "solar"]%string
              ["p1"%string] (fresh sample_network) (fun _ => true) eq_refl)
    as [ext [fixed [He [Hf [_ [_ Hlen]]]]]].
  exists ext, fixed. split; [exact He|]. split; [exact Hf|]. exact Hlen.
Defined.

(* ===================================================================== *)
(** ** Regional reserve margins: the first row with a bus decides *)
(* ===================================================================== *)

Lemma region_peakdemand_no_snapshot (n : Network) (h : Z) (ri : list string) :
  (forall s, In s (snapshots n) -> period s <> h) ->
  region_peakdemand n h ri = Raise (KeyError (Str.of_Z h)).
Proof.
  intros H. unfold region_peakdemand, region_loads, loc_period.
  rewrite filter_none; [reflexivity|].
  intros [s r] Hin. apply in_combine_l in Hin. simpl.
  apply Z.eqb_neq. now apply H.
Qed.

Lemma add_SAFER_rows_outcome (rows : list ReserveMargin) (w : World) :
  for_each rows add_SAFER_row w
  = match first_row_with_bus (net w) rows with
    | None => (Ok tt, w)
    | Some row =>
        match region_peakdemand (net w) (prm_planning_horizon row)
                                (index (prm_region_buses (net w) row)) with
        | Ok _ => (Raise (NameError "conventional_carriers"), w)
        | Raise e => (Raise e, w)
        end
    end.
Proof.
  unfold first_row_with_bus.
  induction rows as [|row rows IH]; [reflexivity|].
  simpl for_each. unfold bind. rewrite add_SAFER_row_run. cbn [find].
  destruct (is_nil (prm_region_buses (net w) row)); cbn [negb].
  - exact IH.
  - destruct (region_peakdemand (net w) _ _); reflexivity.
Qed.

(** X23: the regional reserve margins register nothing, whatever the
    table: the store is left as it was. The call returns normally exactly
    when no row left by the horizon filter names a region with a bus;
    otherwise the first such row decides: the call ends in [KeyError]
    with the row's horizon when that horizon has no snapshot, and in
    [NameError] for the unbound [conventional_carriers] when the region's
    peak demand can be read. *)
Theorem add_SAFER_constraints_outcome (planning_horizons : list Z)
    (regional_prm : list ReserveMargin) (w : World) :
  let rows :=
    filter (fun r => Zisin (prm_planning_horizon r) planning_horizons) regional_prm in
  let out := add_SAFER_constraints planning_horizons regional_prm w in
  snd out = w
  /\ (fst out = Ok tt <-> forall row, In row rows -> prm_region_buses (net w) row = [])
  /\ (forall row,
         first_row_with_bus (net w) rows = Some row ->
         ((forall s, In s (snapshots (net w)) -> period s <> prm_planning_horizon row) ->
          fst out = Raise (KeyError (Str.of_Z (prm_planning_horizon row))))
         /\ (forall peak,
                region_peakdemand (net w) (prm_planning_horizon row)
                                  (index (prm_region_buses (net w) row)) = Ok peak ->
                fst out = Raise (NameError "conventional_carriers"))).
Proof.
  intros rows out. subst out. unfold add_SAFER_constraints. fold rows.
  rewrite add_SAFER_rows_outcome.
  split; [|split].
  - destruct (first_row_with_bus (net w) rows) as [row|]; [|reflexivity].
    destruct (region_peakdemand (net w) _ _); reflexivity.
  - unfold first_row_with_bus.
    destruct (find _ rows) as [row|] eqn:Ef.
    + apply find_some in Ef. destruct Ef as [Hin Hbus]. split.
      * destruct (region_peakdemand (net w) _ _); discriminate.
      * intros Hall. rewrite (Hall row Hin) in Hbus. discriminate.
    + split; [|reflexivity]. intros _ row Hin.
      pose proof (find_none _ _ Ef row Hin) as Hnil. simpl in Hnil.
      apply negb_false_iff in Hnil.
      destruct (prm_region_buses (net w) row); [reflexivity | discriminate].
  - intros row Hfirst. rewrite Hfirst. split.
    + intros Hno. now rewrite (region_peakdemand_no_snapshot _ _ _ Hno).
    + intros peak Hpeak. now rewrite Hpeak.
Qed.

(** The gas network has snapshots for 2030 only. A table whose first row
    for [CA] is for the configured horizon 2040 ends in [KeyError]; a
    table with the row for 2030 alone ends in [NameError]. *)
Lemma add_SAFER_constraints_outcome_witness :
  fst (add_SAFER_constraints [2030; 2040] [california_margin_2040; california_margin]
         (fresh gas_network))
  = Raise (KeyError "2040")
  /\ fst (add_SAFER_constraints [2030; 2040] [california_margin] (fresh gas_network))
     = Raise (NameError "conventional_carriers").
Proof.
  split.
  - apply (proj1 (proj2 (proj2 (add_SAFER_constraints_outcome [2030; 2040]
                                  [california_margin_2040; california_margin]
                                  (fresh gas_network)))
                   california_margin_2040 eq_refl)).
    intros s [<-|[<-|[]]]; discriminate.
  - apply (proj2 (proj2 (proj2 (add_SAFER_constraints_outcome [2030; 2040]
                                  [california_margin] (fresh gas_network)))
                   california_margin eq_refl) (Some 400%Q)).
    reflexivity.
Defined.

(* ===================================================================== *)
(** ** Region resolver: letter case *)
(* ===================================================================== *)

Lemma lower_ascii_not_upper (c : ascii) : is_upper (Str.lower_ascii c) = false.
Proof. destruct c as [[] [] [] [] [] [] [] []]; reflexivity. Qed.

Lemma lower_no_upper (s : string) : has_upper (Str.lower s) = false.
Proof.
  induction s as [|c r IH]; simpl; [reflexivity|].
  now rewrite lower_ascii_not_upper, IH.
Qed.

Lemma lower_ascii_fixed (c : ascii) : is_upper c = false -> Str.lower_ascii c = c.
Proof. unfold is_upper, Str.lower_ascii. intros ->. reflexivity. Qed.

Lemma lower_fixed (s : string) : has_upper s = false -> Str.lower s = s.
Proof.
  induction s as [|c r IH]; simpl; [reflexivity|].
  intros H. apply orb_false_iff in H. destruct H as [Hc Hr].
  now rewrite (lower_ascii_fixed _ Hc), (IH Hr).
Qed.

(** X24: a token that holds an upper-case letter never selects a bus
    through its interconnect name: a bus it resolves to is matched on the
    country, state or NERC code. A token without upper-case letter, on
    the contrary, selects every bus whose interconnect name equals it up
    to the case of the name's letters. *)
Theorem get_region_buses_letter_case (n : Network) (t : string) (b : Bus) :
  (has_upper t = true ->
   In b (get_region_buses n [t]) ->
   t = country b \/ t = reeds_state b \/ t = nerc_reg b)
  /\ (has_upper t = false ->
      In b (buses n) ->
      Str.lower (interconnect b) = Str.lower t ->
      In b (get_region_buses n [t])).
Proof.
  split.
  - intros Hup Hin. unfold get_region_buses in Hin. apply filter_In in Hin.
    destruct Hin as [_ Hm]. unfold Str.isin in Hm. cbn [existsb] in Hm.
    rewrite !orb_false_r in Hm.
    destruct (String.eqb (country b) t) eqn:E1;
      [apply String.eqb_eq in E1; auto|].
    destruct (String.eqb (reeds_state b) t) eqn:E2;
      [apply String.eqb_eq in E2; auto|].
    destruct (String.eqb (Str.lower (interconnect b)) t) eqn:E3.
    + apply String.eqb_eq in E3. rewrite <- E3, lower_no_upper in Hup. discriminate.
    + destruct (String.eqb (nerc_reg b) t) eqn:E4;
        [apply String.eqb_eq in E4; auto|].
      cbn [orb] in Hm. destruct (String.eqb "all" t) eqn:E5; [|discriminate].
      apply String.eqb_eq in E5. subst t. discriminate.
  - intros Hlow Hin Heq. unfold get_region_buses. apply filter_In.
    split; [exact Hin|]. rewrite Heq, (lower_fixed _ Hlow).
    unfold Str.isin at 3. cbn [existsb]. rewrite String.eqb_refl.
    cbn [orb]. rewrite !orb_true_r. reflexivity.
Qed.

Lemma get_region_buses_letter_case_witness :
  In western_bus (get_region_buses one_bus_network ["western"%string]).
Proof.
  apply (proj2 (get_region_buses_letter_case one_bus_network "western" western_bus)).
  - reflexivity.
  - simpl. auto.
  - reflexivity.
Defined.
